(** * Block compression framing (kudu/cfile/block_compression.cc)

    A shallow embedding of [CompressedBlockBuilder::Compress] and
    [CompressedBlockDecoder::Uncompress] together with the properties of
    the framed block format: an 8-byte header (two little-endian 32-bit
    sizes) followed by the codec payload.

    [size_t] is the 64-bit unsigned type of the LP64 platforms the code is
    written for (its format strings print [size_t] with [%lu]); [uint32_t]
    is 32 bits.  Both are carried as [Z] and the wrap-around of every
    operation is written out. *)

From Stdlib Require Import String Ascii DecimalString ZArith List Lia Bool Sorted.
From coqutil Require Import Byte Word.LittleEndianList.
Import ListNotations.
Local Open Scope Z_scope.

(** ** Machine integers *)

Definition to_size_t (z : Z) : Z := z mod 2 ^ 64.
Definition to_uint32 (z : Z) : Z := z mod 2 ^ 32.

(** ** Byte ranges *)

(** A [Slice] that is only read (the input of either operation) is carried
    by its contents: [data()] is the list, [size()] its length.  The input
    ranges are taken not to overlap the storage that the operation itself
    writes. *)
Definition Slice := list byte.

Definition size (s : Slice) : Z := Z.of_nat (length s).

(** A pointer into the heap: an allocation and a byte offset inside it. *)
Record Ptr := mkPtr { block : nat; offset : Z }.

(** A [Slice] that is handed back through the [result] out-parameter is
    carried as the C++ object is: a pointer and a length. *)
Record SliceRef := mkSlice { data : Ptr; slice_size : Z }.

(** ** kudu/util/coding.h *)

(** Modelled from the spec: [InlineEncodeFixed32] (kudu/util/coding-inl.h)
    is not part of the sources at hand; the spec fixes it as a 32-bit
    little-endian store.  The parameter is a [uint32_t], so a wider
    argument is converted first. *)
Definition InlineEncodeFixed32 (value : Z) : list byte :=
  let v := to_uint32 value in
  [ byte.of_Z (Z.land v 255);
    byte.of_Z (Z.land (Z.shiftr v 8) 255);
    byte.of_Z (Z.land (Z.shiftr v 16) 255);
    byte.of_Z (Z.land (Z.shiftr v 24) 255) ].

(** Modelled from the spec: [DecodeFixed32] (kudu/util/coding.h), the
    32-bit little-endian load from the four bytes at [ptr]. *)
Definition DecodeFixed32 (ptr : list byte) : Z :=
  let b i := byte.unsigned (nth i ptr Byte.x00) in
  Z.lor (b 0%nat)
    (Z.lor (Z.shiftl (b 1%nat) 8)
       (Z.lor (Z.shiftl (b 2%nat) 16) (Z.shiftl (b 3%nat) 24))).

(** ** kudu/gutil/stringprintf.h *)

Definition decimal (n : Z) : string :=
  NilZero.string_of_uint (N.to_uint (Z.to_N n)).

(** [StringPrintf] for the two conversions the file uses: [%lu] takes an
    [unsigned long] (64 bits), [%u] an [unsigned int] (32 bits); both print
    in decimal.  A conversion without an argument prints nothing. *)
Fixpoint StringPrintf (format : string) (args : list Z) : string :=
  match format with
  | EmptyString => EmptyString
  | String "%" (String "l" (String "u" rest)) =>
      match args with
      | a :: args' => decimal (to_size_t a) ++ StringPrintf rest args'
      | [] => StringPrintf rest []
      end
  | String "%" (String "u" rest) =>
      match args with
      | a :: args' => decimal (to_uint32 a) ++ StringPrintf rest args'
      | [] => StringPrintf rest []
      end
  | String c rest => String c (StringPrintf rest args)
  end%string.

(** ** kudu/util/slice.h *)

(** Modelled from the spec: [Slice::ToDebugString(max_len)] is not part of
    the sources at hand; the spec calls it a bounded diagnostic excerpt of
    at most the first [max_len] bytes of the slice. *)
Definition ToDebugString (s : Slice) (max_len : nat) : string :=
  string_of_list_byte (firstn max_len s).

(** ** kudu/util/status.h *)

Inductive StatusCode : Type :=
| kOk
| kInvalidArgument
| kCorruption
| kOtherError (kind : nat).

(** A [Status] is its code and the two message parts it was built from. *)
Record Status := mkStatus { code : StatusCode; msg : string; msg2 : string }.

Definition Status_OK : Status := mkStatus kOk "" "".
Definition Status_InvalidArgument (m : string) : Status :=
  mkStatus kInvalidArgument m "".
Definition Status_Corruption (m m2 : string) : Status :=
  mkStatus kCorruption m m2.

Definition ok (s : Status) : bool :=
  match code s with kOk => true | _ => false end.

(** ** kudu/cfile/compression_codec.h *)

(** The [CompressionCodec] interface, by what the framing layer observes.
    [Compress] writes at the destination it is handed and yields its status
    and the bytes it wrote; on success their count is what it stores in
    [*compressed_length].  [Uncompress] likewise yields its status and the
    bytes it wrote at the start of the output buffer. *)
Module CompressionCodec.
Record t := {
  MaxCompressedLength : Z -> Z;
  Compress : list Slice -> Status * list byte;
  Uncompress : Slice -> Z -> Status * list byte
}.
End CompressionCodec.

(** ** Memory and observable events *)

(** The heap: allocation [i] is entry [i]; [None] is a freed allocation. *)
Definition Heap := list (option (list byte)).

Inductive Event : Type :=
| EvNew (b : nat) (n : Z)
| EvDelete (b : nat)
| EvDecodeFixed32 (offset : Z)
| EvMaxCompressedLength (source_bytes : Z)
| EvCodecCompress (input : list Slice) (dest : Ptr) (dest_room : Z)
| EvCodecUncompress (compressed : Slice) (dest : Ptr) (uncompressed_length : Z).

Record Machine := mkMachine { heap : Heap; trace : list Event }.

(** Computations over the machine; [None] is undefined behaviour (an access
    outside an allocation or to a freed one). *)
Definition M (A : Type) : Type := Machine -> option (A * Machine).

Definition ret {A} (a : A) : M A := fun m => Some (a, m).

Definition bind {A B} (c : M A) (k : A -> M B) : M B :=
  fun m => match c m with
           | Some (a, m') => k a m'
           | None => None
           end.

Notation "x <- c ;; k" := (bind c (fun x => k))
  (at level 61, c at next level, right associativity).
Notation "' pat <- c ;; k" := (bind c (fun x => match x with pat => k end))
  (at level 61, pat pattern, c at next level, right associativity).
Notation "c ;;; k" := (bind c (fun _ => k))
  (at level 61, right associativity).

Definition emit (e : Event) : M unit :=
  fun m => Some (tt, mkMachine (heap m) (trace m ++ [e])).

Fixpoint set_block (h : Heap) (b : nat) (v : option (list byte)) : Heap :=
  match h, b with
  | [], _ => []
  | _ :: h', O => v :: h'
  | x :: h', S b' => x :: set_block h' b' v
  end.

Definition live (h : Heap) (b : nat) : option (list byte) :=
  match nth_error h b with
  | Some (Some bytes) => Some bytes
  | _ => None
  end.

(** [new uint8_t[n]]: a fresh allocation of [n] bytes (their initial value
    is indeterminate in C++; it is taken to be zero). *)
Definition new_array (n : Z) : M nat :=
  fun m =>
    let b := length (heap m) in
    Some (b, mkMachine (heap m ++ [Some (repeat Byte.x00 (Z.to_nat n))])
                       (trace m ++ [EvNew b n])).

(** [delete[] p]. *)
Definition delete_array (b : nat) : M unit :=
  fun m =>
    match live (heap m) b with
    | Some _ => Some (tt, mkMachine (set_block (heap m) b None)
                                    (trace m ++ [EvDelete b]))
    | None => None
    end.

(** Read [n] bytes at [p]. *)
Definition load (p : Ptr) (n : Z) : M (list byte) :=
  fun m =>
    match live (heap m) (block p) with
    | Some bytes =>
        if (0 <=? offset p) && (0 <=? n) && (offset p + n <=? size bytes)
        then Some (firstn (Z.to_nat n) (skipn (Z.to_nat (offset p)) bytes), m)
        else None
    | None => None
    end.

(** [bytes] with [bs] written over it from position [o]. *)
Definition splice (bytes : list byte) (o : nat) (bs : list byte) : list byte :=
  firstn o bytes ++ bs ++ skipn (o + length bs) bytes.

(** Write [bs] at [p], where [room] bytes from [p] on belong to the object
    written to: writing past them, or past the allocation, is undefined. *)
Definition store_within (p : Ptr) (room : Z) (bs : list byte) : M unit :=
  fun m =>
    match live (heap m) (block p) with
    | Some bytes =>
        if (0 <=? offset p) && (size bs <=? room)
           && (offset p + room <=? size bytes)
        then
          Some (tt, mkMachine
                      (set_block (heap m) (block p)
                         (Some (splice bytes (Z.to_nat (offset p)) bs)))
                      (trace m))
        else None
    | None => None
    end.

(** Write [bs] at [p], anywhere inside the allocation.  An object is
    smaller than the address space of 2^64 bytes, so the bytes written end
    below offset 2^64. *)
Definition store (p : Ptr) (bs : list byte) : M unit :=
  fun m =>
    if offset p + size bs <? 2 ^ 64 then store_within p (size bs) bs m
    else None.

(** The bytes a [SliceRef] denotes in a heap, when it lies inside a live
    allocation. *)
Definition read_slice (h : Heap) (s : SliceRef) : option Slice :=
  match load (data s) (slice_size s) (mkMachine h []) with
  | Some (bs, _) => Some bs
  | None => None
  end.

(** ** kudu/util/faststring.h *)

(** Modelled from the spec: the type of the Builder's [buffer_] is declared
    outside the sources at hand.  The spec has the scratch buffer resized to
    the requested length on every call, with storage that is reused and only
    ever grown: [len_] is the length [resize] sets, [capacity_] the size of
    the allocation [data_] behind it. *)
Record faststring := mkFaststring { data_ : nat; len_ : Z; capacity_ : Z }.

(** Modelled from the spec: a new buffer is empty. *)
Definition faststring_new : M faststring :=
  b <- new_array 0 ;;
  ret (mkFaststring b 0 0).

(** Modelled from the spec: [resize] sets the length; the storage is reused
    when it is large enough and replaced by a larger one, which takes over
    the contents, when it is not.  It is never made smaller.  The Builder
    owns one buffer, so the storage that is replaced is given up; the
    properties below that speak of an earlier view ask for the storage to
    have been reused and do not rest on this. *)
Definition faststring_resize (s : faststring) (newsize : Z) : M faststring :=
  if newsize >? capacity_ s then
    old <- load (mkPtr (data_ s) 0) (len_ s) ;;
    newdata <- new_array newsize ;;
    store (mkPtr newdata 0) old ;;;
    delete_array (data_ s) ;;;
    ret (mkFaststring newdata newsize newsize)
  else
    ret (mkFaststring (data_ s) newsize (capacity_ s)).

(** ** Calls through the codec interface *)

Definition call_MaxCompressedLength (codec : CompressionCodec.t)
    (source_bytes : Z) : M Z :=
  emit (EvMaxCompressedLength source_bytes) ;;;
  ret (to_size_t (CompressionCodec.MaxCompressedLength codec source_bytes)).

(** [dest_room] is how many bytes of the buffer's length lie at and after
    [dest]; it is recorded in the trace, the codec is not told.  The codec
    writes through the raw pointer [dest]: its bytes need not stay within
    the buffer's length, only inside the allocation behind it. *)
Definition call_Compress (codec : CompressionCodec.t) (input : list Slice)
    (dest : Ptr) (dest_room : Z) : M (Status * Z) :=
  emit (EvCodecCompress input dest dest_room) ;;;
  let '(s, written) := CompressionCodec.Compress codec input in
  store dest written ;;;
  ret (s, to_size_t (size written)).

Definition call_Uncompress (codec : CompressionCodec.t) (compressed : Slice)
    (dest : Ptr) (uncompressed_length : Z) : M Status :=
  emit (EvCodecUncompress compressed dest uncompressed_length) ;;;
  let '(s, written) :=
    CompressionCodec.Uncompress codec compressed uncompressed_length in
  store_within dest uncompressed_length written ;;;
  ret s.

(** The [n] bytes at offset [off] of an input slice.  A slice is modelled
    by the bytes it views, so reading past its last byte is reading
    outside the caller's data: undefined. *)
Definition subslice (base : Slice) (off n : Z) : M Slice :=
  fun m =>
    if (0 <=? off) && (0 <=? n) && (off + n <=? size base)
    then Some (firstn (Z.to_nat n) (skipn (Z.to_nat off) base), m)
    else None.

(** [DecodeFixed32(base.data() + off)] reads four bytes at [off]. *)
Definition call_DecodeFixed32 (base : Slice) (off : nat) : M Z :=
  field <- subslice base (Z.of_nat off) 4 ;;
  emit (EvDecodeFixed32 (Z.of_nat off)) ;;;
  ret (DecodeFixed32 field).

(** ** CompressedBlockBuilder *)

Module CompressedBlockBuilder.

Record t := mk {
  codec_ : CompressionCodec.t;
  compressed_size_limit_ : Z;
  buffer_ : faststring
}.

(** Modelled from the spec: [kHeaderReservedLength] is declared in
    block_compression.h; the header is 8 bytes. *)
Definition kHeaderReservedLength : Z := 8.

Definition new (codec : CompressionCodec.t) (size_limit : Z) : M t :=
  buffer <- faststring_new ;;
  ret (mk codec (to_size_t size_limit) buffer).

Definition total_size (data_slices : list Slice) : Z :=
  fold_left (fun data_size data => to_size_t (data_size + size data))
            data_slices 0.

(** [Status Compress(const vector<Slice> &data_slices, Slice *result)];
    the outcome is the returned status, the Builder afterwards and
    [*result] afterwards.  [buffer_.data() + 8], [&buffer_[0]] and
    [&buffer_[4]] are addresses into the buffer's storage: what is written
    through them has to lie inside the allocation. *)
Definition Compress (this : t) (data_slices : list Slice)
    (result : SliceRef) : M (Status * t * SliceRef) :=
  let data_size := total_size data_slices in
  max_compressed_size <- call_MaxCompressedLength (codec_ this) data_size ;;
  if max_compressed_size >? compressed_size_limit_ this then
    ret (Status_InvalidArgument
           (StringPrintf
              "estimated max size %lu is greater than the expected %lu"
              [max_compressed_size; compressed_size_limit_ this]),
         this, result)
  else
    buffer <- faststring_resize (buffer_ this)
                (to_size_t (kHeaderReservedLength + max_compressed_size)) ;;
    let this := mk (codec_ this) (compressed_size_limit_ this) buffer in
    '(s, compressed_size) <-
      call_Compress (codec_ this) data_slices
        (mkPtr (data_ buffer) kHeaderReservedLength)
        (len_ buffer - kHeaderReservedLength) ;;
    if negb (ok s) then ret (s, this, result)
    else
      store (mkPtr (data_ buffer) 0) (InlineEncodeFixed32 compressed_size) ;;;
      store (mkPtr (data_ buffer) 4) (InlineEncodeFixed32 data_size) ;;;
      ret (Status_OK, this,
           mkSlice (mkPtr (data_ buffer) 0)
                   (to_size_t (compressed_size + kHeaderReservedLength))).

(** [Status Compress(const Slice& data, Slice *result)]. *)
Definition Compress1 (this : t) (data : Slice) (result : SliceRef)
    : M (Status * t * SliceRef) :=
  let v := [] ++ [data] in
  Compress this v result.

End CompressedBlockBuilder.

(** ** CompressedBlockDecoder *)

Module CompressedBlockDecoder.

Record t := mk {
  codec_ : CompressionCodec.t;
  uncompressed_size_limit_ : Z
}.

Definition new (codec : CompressionCodec.t) (size_limit : Z) : t :=
  mk codec (to_size_t size_limit).

(** [Status Uncompress(const Slice& data, Slice *result)]; the outcome is
    the returned status and [*result] afterwards.  The scoped array that
    holds the output is freed on the way out unless it was released into
    [*result]. *)
Definition Uncompress (this : t) (data : Slice) (result : SliceRef)
    : M (Status * SliceRef) :=
  let kHeaderReservedLength := CompressedBlockBuilder.kHeaderReservedLength in
  if size data <? kHeaderReservedLength then
    ret (Status_Corruption
           (StringPrintf
              "data size %lu is not enough to contains the header. required %lu, buffer"
              [size data; kHeaderReservedLength])
           (ToDebugString data 50),
         result)
  else
    compressed_size <- call_DecodeFixed32 data 0 ;;
    uncompressed_size <- call_DecodeFixed32 data 4 ;;
    if negb (size data =? to_size_t (kHeaderReservedLength + compressed_size))
    then
      ret (Status_Corruption
             (StringPrintf
                "compressed size %u does not match remaining length in buffer %lu, buffer"
                [compressed_size;
                 to_size_t (size data - kHeaderReservedLength)])
             (ToDebugString data 50),
           result)
    else if uncompressed_size >? uncompressed_size_limit_ this then
      ret (Status_Corruption
             (StringPrintf
                "uncompressed size %u overflows the maximum length %lu, buffer"
                [compressed_size; uncompressed_size_limit_ this])
             (ToDebugString data 50),
           result)
    else
      compressed <- subslice data kHeaderReservedLength compressed_size ;;
      buffer <- new_array uncompressed_size ;;
      s <- call_Uncompress (codec_ this) compressed (mkPtr buffer 0)
             uncompressed_size ;;
      if negb (ok s) then
        delete_array buffer ;;;
        ret (s, result)
      else
        ret (Status_OK, mkSlice (mkPtr buffer 0) uncompressed_size).

End CompressedBlockDecoder.

(** ** Two codecs to run the operations on *)

(** A codec that stores its input unchanged. *)
Definition store_codec : CompressionCodec.t := {|
  CompressionCodec.MaxCompressedLength := fun n => n;
  CompressionCodec.Compress := fun input => (Status_OK, concat input);
  CompressionCodec.Uncompress := fun compressed n =>
    if size compressed =? n then (Status_OK, compressed)
    else (Status_Corruption "unable to uncompress the buffer" "", [])
|}.

(** A run-length codec: each run of up to 255 equal bytes becomes the pair
    of its length and its byte. *)
Fixpoint rle_encode (run : option (byte * nat)) (l : list byte) : list byte :=
  let flush r :=
    match r with
    | Some (b, n) => [byte.of_Z (Z.of_nat n); b]
    | None => []
    end in
  match l with
  | [] => flush run
  | x :: l' =>
      match run with
      | Some (b, n) =>
          if Byte.eqb x b && (n <? 255)%nat
          then rle_encode (Some (b, S n)) l'
          else flush run ++ rle_encode (Some (x, 1%nat)) l'
      | None => rle_encode (Some (x, 1%nat)) l'
      end
  end.

Fixpoint rle_decode (l : list byte) : list byte :=
  match l with
  | n :: l' =>
      match l' with
      | b :: l'' => repeat b (Z.to_nat (byte.unsigned n)) ++ rle_decode l''
      | [] => []
      end
  | [] => []
  end.

Definition rle_codec : CompressionCodec.t := {|
  CompressionCodec.MaxCompressedLength := fun n => 2 * n;
  CompressionCodec.Compress := fun input =>
    (Status_OK, rle_encode None (concat input));
  CompressionCodec.Uncompress := fun compressed n =>
    let out := rle_decode compressed in
    if size out =? n then (Status_OK, out)
    else (Status_Corruption "unable to uncompress the buffer" "", [])
|}.

(** A codec whose [Compress] refuses every input. *)
Definition refusing_codec : CompressionCodec.t := {|
  CompressionCodec.MaxCompressedLength := fun n => n;
  CompressionCodec.Compress := fun _ =>
    (Status_InvalidArgument "unsupported input", []);
  CompressionCodec.Uncompress := fun _ _ =>
    (Status_Corruption "unable to uncompress the buffer" "", [])
|}.

(** Running a computation from an empty heap. *)
Definition empty_machine : Machine := mkMachine [] [].

(** ** Well-formed scratch buffers *)

(** The buffer's allocation is live and [capacity_] bytes long, and the
    buffer's length lies within it. *)
Definition faststring_ok (h : Heap) (s : faststring) : Prop :=
  exists bytes,
    live h (data_ s) = Some bytes /\
    size bytes = capacity_ s /\
    0 <= len_ s <= capacity_ s.

(** What [faststring_resize] leaves in the trace when the next allocation
    would be [next]. *)
Definition resize_events (next : nat) (s : faststring) (newsize : Z)
    : list Event :=
  if newsize >? capacity_ s then [EvNew next newsize; EvDelete (data_ s)]
  else [].

(** ** Derived operations *)

(** [CompressedBlockBuilder::Compress] from the codec call to the end, for
    a Builder whose [buffer_] has just been resized. *)
Definition Compress_tail (this : CompressedBlockBuilder.t)
    (data_slices : list Slice) (result : SliceRef) (data_size : Z)
    : M (Status * CompressedBlockBuilder.t * SliceRef) :=
  let buffer := CompressedBlockBuilder.buffer_ this in
  '(s, compressed_size) <-
    call_Compress (CompressedBlockBuilder.codec_ this) data_slices
      (mkPtr (data_ buffer) 8) (len_ buffer - 8) ;;
  if negb (ok s) then ret (s, this, result)
  else
    store (mkPtr (data_ buffer) 0) (InlineEncodeFixed32 compressed_size) ;;;
    store (mkPtr (data_ buffer) 4) (InlineEncodeFixed32 data_size) ;;;
    ret (Status_OK, this,
         mkSlice (mkPtr (data_ buffer) 0) (to_size_t (compressed_size + 8))).

(** Compress one block, read the framed block back out of the scratch
    buffer and hand it to a Decoder; the outcome is the status of the first
    step that fails, or the bytes the Decoder returns. *)
Definition compress_then_uncompress (builder : CompressedBlockBuilder.t)
    (decoder : CompressedBlockDecoder.t) (input : Slice)
    (result1 result2 : SliceRef) : M (Status * option Slice) :=
  '(s1, _, view) <- CompressedBlockBuilder.Compress1 builder input result1 ;;
  if negb (ok s1) then ret (s1, None)
  else
    framed <- load (data view) (slice_size view) ;;
    '(s2, out) <- CompressedBlockDecoder.Uncompress decoder framed result2 ;;
    if negb (ok s2) then ret (s2, None)
    else
      bytes <- load (data out) (slice_size out) ;;
      ret (Status_OK, Some bytes).

(** Successive [Compress] calls on one Builder, each handed the [result]
    slot the previous one left; the outcome lists, call by call, the
    status, the Builder afterwards and [*result] afterwards. *)
Fixpoint compress_all (this : CompressedBlockBuilder.t)
    (calls : list (list Slice)) (result : SliceRef)
    : M (list (Status * CompressedBlockBuilder.t * SliceRef)) :=
  match calls with
  | [] => ret []
  | data_slices :: calls' =>
      '(s, this', result') <-
        CompressedBlockBuilder.Compress this data_slices result ;;
      later <- compress_all this' calls' result' ;;
      ret ((s, this', result') :: later)
  end.

Definition buffer_after (x : Status * CompressedBlockBuilder.t * SliceRef)
    : faststring :=
  CompressedBlockBuilder.buffer_ (snd (fst x)).

(** A codec that stores its input unchanged and whose estimate is always
    the largest [size_t]. *)
Definition pessimistic_codec : CompressionCodec.t := {|
  CompressionCodec.MaxCompressedLength := fun _ => 2 ^ 64 - 1;
  CompressionCodec.Compress := CompressionCodec.Compress store_codec;
  CompressionCodec.Uncompress := CompressionCodec.Uncompress store_codec
|}.

(** The empty [Slice()] a caller may pass as [*result]. *)
Definition no_slice : SliceRef := mkSlice (mkPtr 0 0) 0.

(** An 8-byte block whose header declares an empty payload and 100
    uncompressed bytes. *)
Definition bomb_header : Slice :=
  InlineEncodeFixed32 0 ++ InlineEncodeFixed32 100.

(** What [CompressedBlockBuilder.new] yields on the empty machine: a Builder
    over an empty buffer, which is allocation 0. *)
Definition fresh_builder (codec : CompressionCodec.t) (size_limit : Z)
    : CompressedBlockBuilder.t :=
  CompressedBlockBuilder.mk codec size_limit (mkFaststring 0 0 0).

Definition fresh_machine : Machine := mkMachine [Some []] [EvNew 0 0].

(** Compress a list of ranges, read the framed block back out of the
    scratch buffer and hand it to a Decoder; the outcome is the status of
    the first step that fails, or the bytes the Decoder returns. *)
Definition compress_ranges_then_uncompress
    (builder : CompressedBlockBuilder.t) (decoder : CompressedBlockDecoder.t)
    (data_slices : list Slice) (result1 result2 : SliceRef)
    : M (Status * option Slice) :=
  '(s1, _, view) <-
    CompressedBlockBuilder.Compress builder data_slices result1 ;;
  if negb (ok s1) then ret (s1, None)
  else
    framed <- load (data view) (slice_size view) ;;
    '(s2, out) <- CompressedBlockDecoder.Uncompress decoder framed result2 ;;
    if negb (ok s2) then ret (s2, None)
    else
      bytes <- load (data out) (slice_size out) ;;
      ret (Status_OK, Some bytes).

(** What a call returned and the heap it left, without the trace. *)
Definition returned_and_heap {A : Type} (r : option (A * Machine))
    : option (A * Heap) :=
  match r with
  | Some (a, m) => Some (a, heap m)
  | None => None
  end.

(** The header fields and the payload range of a block, as [Uncompress]
    reads them. *)
Definition header_compressed_size (block_bytes : Slice) : Z :=
  DecodeFixed32 block_bytes.

Definition header_uncompressed_size (block_bytes : Slice) : Z :=
  DecodeFixed32 (skipn 4 block_bytes).

Definition payload_of (block_bytes : Slice) : Slice :=
  firstn (Z.to_nat (header_compressed_size block_bytes))
         (skipn 8 block_bytes).

(** A framed block: the two header fields and the payload. *)
Definition framed_block (compressed_size data_size : Z) (payload : Slice)
    : Slice :=
  InlineEncodeFixed32 compressed_size
    ++ InlineEncodeFixed32 data_size ++ payload.

(** What one [Compress] call needs of its input to stay inside the scratch
    buffer: when the pre-check lets the codec run, 8 plus the estimate is
    still a [size_t] and the codec writes no more than its estimate. *)
Definition codec_keeps_estimate (codec : CompressionCodec.t) (limit : Z)
    (data_slices : list Slice) : Prop :=
  let max_compressed_size :=
    to_size_t (CompressionCodec.MaxCompressedLength codec
                 (CompressedBlockBuilder.total_size data_slices)) in
  max_compressed_size <= limit ->
  8 + max_compressed_size < 2 ^ 64 /\
  size (snd (CompressionCodec.Compress codec data_slices))
    <= max_compressed_size.

(** Construct a Builder and a Decoder over one codec, compress the ranges
    with the first and uncompress the framed block with the second. *)
Definition construct_compress_uncompress (codec : CompressionCodec.t)
    (compressed_size_limit uncompressed_size_limit : Z)
    (data_slices : list Slice) (result1 result2 : SliceRef)
    : M (Status * option Slice) :=
  builder <- CompressedBlockBuilder.new codec compressed_size_limit ;;
  let decoder := CompressedBlockDecoder.new codec uncompressed_size_limit in
  compress_ranges_then_uncompress builder decoder data_slices result1
    result2.

(** * Properties *)

(** ** Fixed-width integers *)

Lemma to_uint32_range (z : Z) : 0 <= to_uint32 z < 2 ^ 32.
Proof. unfold to_uint32. apply Z.mod_pos_bound. lia. Qed.

Lemma to_size_t_range (z : Z) : 0 <= to_size_t z < 2 ^ 64.
Proof. unfold to_size_t. apply Z.mod_pos_bound. lia. Qed.

Lemma to_size_t_small (z : Z) : 0 <= z < 2 ^ 64 -> to_size_t z = z.
Proof. intros H. unfold to_size_t. apply Z.mod_small. exact H. Qed.

Lemma to_uint32_small (z : Z) : 0 <= z < 2 ^ 32 -> to_uint32 z = z.
Proof. intros H. unfold to_uint32. apply Z.mod_small. exact H. Qed.

Lemma size_nonneg (s : Slice) : 0 <= size s.
Proof. unfold size. lia. Qed.

Lemma size_app (a b : Slice) : size (a ++ b) = size a + size b.
Proof. unfold size. rewrite length_app. lia. Qed.

Lemma byte_of_Z_low (v : Z) : byte.of_Z (Z.land v 255) = byte.of_Z v.
Proof.
  apply byte.unsigned_inj. rewrite !byte.unsigned_of_Z. unfold byte.wrap.
  change 255 with (Z.ones 8). rewrite Z.land_ones by lia.
  apply Z.mod_mod. lia.
Qed.

Lemma InlineEncodeFixed32_le_split (value : Z) :
  InlineEncodeFixed32 value = le_split 4 (to_uint32 value).
Proof.
  unfold InlineEncodeFixed32. cbv [le_split].
  rewrite !byte_of_Z_low, !Z.shiftr_shiftr by lia. reflexivity.
Qed.

Lemma InlineEncodeFixed32_length (value : Z) :
  length (InlineEncodeFixed32 value) = 4%nat.
Proof. reflexivity. Qed.

Lemma InlineEncodeFixed32_size (value : Z) :
  size (InlineEncodeFixed32 value) = 4.
Proof. reflexivity. Qed.

Lemma DecodeFixed32_le_combine (b0 b1 b2 b3 : byte) (rest : list byte) :
  DecodeFixed32 (b0 :: b1 :: b2 :: b3 :: rest) = le_combine [b0; b1; b2; b3].
Proof.
  cbv [DecodeFixed32 nth le_combine].
  rewrite Z.shiftl_0_l, Z.lor_0_r.
  rewrite !Z.shiftl_lor, !Z.shiftl_shiftl by lia. reflexivity.
Qed.

(** Decoding what was encoded gives the value back, as a [uint32_t]. *)
Lemma DecodeFixed32_InlineEncodeFixed32 (value : Z) (rest : list byte) :
  DecodeFixed32 (InlineEncodeFixed32 value ++ rest) = to_uint32 value.
Proof.
  pose proof (le_combine_split 4 (to_uint32 value)) as H.
  rewrite <- InlineEncodeFixed32_le_split in H.
  unfold InlineEncodeFixed32 in *. cbn [app].
  rewrite DecodeFixed32_le_combine, H.
  apply Z.mod_small. apply to_uint32_range.
Qed.

Lemma DecodeFixed32_firstn (k : nat) (l : list byte) :
  (4 <= k)%nat -> DecodeFixed32 (firstn k l) = DecodeFixed32 l.
Proof.
  intros Hk. unfold DecodeFixed32. rewrite !nth_firstn.
  replace (0 <? k)%nat with true by (symmetry; apply Nat.ltb_lt; lia).
  replace (1 <? k)%nat with true by (symmetry; apply Nat.ltb_lt; lia).
  replace (2 <? k)%nat with true by (symmetry; apply Nat.ltb_lt; lia).
  replace (3 <? k)%nat with true by (symmetry; apply Nat.ltb_lt; lia).
  reflexivity.
Qed.

Lemma DecodeFixed32_range (p : list byte) : 0 <= DecodeFixed32 p < 2 ^ 32.
Proof.
  unfold DecodeFixed32.
  pose proof (byte.unsigned_range (nth 0 p Byte.x00)) as H0.
  pose proof (byte.unsigned_range (nth 1 p Byte.x00)) as H1.
  pose proof (byte.unsigned_range (nth 2 p Byte.x00)) as H2.
  pose proof (byte.unsigned_range (nth 3 p Byte.x00)) as H3.
  set (a := byte.unsigned (nth 0 p Byte.x00)) in *.
  set (b := byte.unsigned (nth 1 p Byte.x00)) in *.
  set (c := byte.unsigned (nth 2 p Byte.x00)) in *.
  set (d := byte.unsigned (nth 3 p Byte.x00)) in *.
  cbv beta.
  assert (Hlor : forall x y n, 0 <= n -> 0 <= x < 2 ^ n -> 0 <= y < 2 ^ n ->
                               0 <= Z.lor x y < 2 ^ n).
  { intros x y n Hn Hx Hy. split.
    - apply Z.lor_nonneg. lia.
    - destruct (Z.eq_dec (Z.lor x y) 0) as [->|Hne]; [lia|].
      apply Z.log2_lt_pow2; [pose proof (proj2 (Z.lor_nonneg x y)); lia|].
      rewrite Z.log2_lor by lia.
      destruct (Z.eq_dec x 0) as [->|Hx0]; destruct (Z.eq_dec y 0) as [->|Hy0];
        cbn [Z.log2]; try (rewrite Z.max_id).
      + rewrite Z.lor_0_l in Hne. lia.
      + rewrite Z.max_r by (apply Z.log2_nonneg).
        apply Z.log2_lt_pow2; lia.
      + rewrite Z.max_l by (apply Z.log2_nonneg).
        apply Z.log2_lt_pow2; lia.
      + apply Z.max_lub_lt; apply Z.log2_lt_pow2; lia. }
  assert (Hshl : forall x k, 0 <= k -> 0 <= x < 2 ^ 8 -> k + 8 <= 32 ->
                             0 <= Z.shiftl x k < 2 ^ 32).
  { intros x k Hk Hx Hk8. rewrite Z.shiftl_mul_pow2 by lia. split; [nia|].
    apply Z.lt_le_trans with (2 ^ 8 * 2 ^ k); [nia|].
    rewrite <- Z.pow_add_r by lia. apply Z.pow_le_mono_r; lia. }
  apply Hlor; [lia|lia|].
  apply Hlor; [lia|apply Hshl; lia|].
  apply Hlor; [lia|apply Hshl; lia|apply Hshl; lia].
Qed.

Lemma to_uint32_to_size_t (z : Z) : to_uint32 (to_size_t z) = to_uint32 z.
Proof.
  unfold to_uint32, to_size_t.
  apply Z.mod_mod_divide. exists (2 ^ 32). reflexivity.
Qed.

(** Four little-endian bytes hold a value's low 32 bits. *)
Lemma le_split_to_uint32 (z : Z) : le_split 4 (to_uint32 z) = le_split 4 z.
Proof.
  apply le_combine_inj.
  - rewrite !length_le_split. reflexivity.
  - rewrite !le_combine_split. apply Z.mod_mod. lia.
Qed.

(** The loop that adds up the input ranges computes their combined length,
    in [size_t]. *)
Lemma total_size_concat (data_slices : list Slice) :
  CompressedBlockBuilder.total_size data_slices
    = to_size_t (size (concat data_slices)).
Proof.
  unfold CompressedBlockBuilder.total_size.
  set (step := fun data_size data => to_size_t (data_size + size data)).
  assert (Hred : forall acc, 0 <= acc < 2 ^ 64 ->
                   0 <= fold_left step data_slices acc < 2 ^ 64).
  { induction data_slices as [|d ds IH]; intros acc Hacc; cbn [fold_left];
      [exact Hacc|apply IH; apply to_size_t_range]. }
  assert (Hsum : forall acc,
             to_size_t (fold_left step data_slices acc)
             = to_size_t (acc + size (concat data_slices))).
  { clear Hred.
    induction data_slices as [|d ds IH]; intros acc; cbn [fold_left concat].
    - f_equal. cbn. lia.
    - rewrite IH, size_app. unfold step, to_size_t.
      rewrite Zplus_mod_idemp_l. f_equal. lia. }
  specialize (Hsum 0). cbn [Z.add] in Hsum. rewrite <- Hsum.
  symmetry. apply to_size_t_small. apply Hred. lia.
Qed.

Lemma total_size_low (data_slices : list Slice) :
  to_uint32 (CompressedBlockBuilder.total_size data_slices)
    = to_uint32 (size (concat data_slices)).
Proof. rewrite total_size_concat. apply to_uint32_to_size_t. Qed.

(** ** The heap *)

Lemma set_block_length (h : Heap) (b : nat) (v : option (list byte)) :
  length (set_block h b v) = length h.
Proof.
  revert b. induction h as [|x h IH]; intros [|b]; cbn; auto.
Qed.

Lemma nth_error_set_block_same (h : Heap) (b : nat) v :
  (b < length h)%nat -> nth_error (set_block h b v) b = Some v.
Proof.
  revert b. induction h as [|x h IH]; intros [|b] Hb; cbn in *; try lia; auto.
  apply IH. lia.
Qed.

Lemma nth_error_set_block_other (h : Heap) (b b' : nat) v :
  b <> b' -> nth_error (set_block h b v) b' = nth_error h b'.
Proof.
  revert b b'. induction h as [|x h IH]; intros [|b] [|b'] Hne; cbn;
    try congruence; auto.
Qed.

Lemma live_lt (h : Heap) (b : nat) (bytes : list byte) :
  live h b = Some bytes -> (b < length h)%nat.
Proof.
  unfold live. intros H. apply nth_error_Some. destruct (nth_error h b); congruence.
Qed.

Lemma live_set_block_same (h : Heap) (b : nat) (bytes : list byte) :
  (b < length h)%nat -> live (set_block h b (Some bytes)) b = Some bytes.
Proof.
  intros Hb. unfold live. rewrite nth_error_set_block_same; auto.
Qed.

Lemma live_set_block_other (h : Heap) (b b' : nat) v :
  b <> b' -> live (set_block h b v) b' = live h b'.
Proof.
  intros Hne. unfold live. rewrite nth_error_set_block_other; auto.
Qed.

Lemma live_app_old (h h' : Heap) (b : nat) (bytes : list byte) :
  live h b = Some bytes -> live (h ++ h') b = Some bytes.
Proof.
  intros H. pose proof (live_lt _ _ _ H) as Hlt. unfold live in *.
  rewrite nth_error_app1; auto.
Qed.

Lemma live_app_new (h : Heap) (bytes : list byte) :
  live (h ++ [Some bytes]) (length h) = Some bytes.
Proof.
  unfold live. rewrite nth_error_app2, Nat.sub_diag by lia. reflexivity.
Qed.

Lemma live_fresh (h : Heap) : live h (length h) = None.
Proof.
  unfold live. replace (nth_error h (length h)) with (@None (option (list byte))).
  - reflexivity.
  - symmetry. apply nth_error_None. lia.
Qed.

Lemma set_block_twice (h : Heap) (b : nat) v w :
  set_block (set_block h b v) b w = set_block h b w.
Proof.
  revert b. induction h as [|x h IH]; intros [|b]; cbn; auto.
  rewrite IH. reflexivity.
Qed.

(** ** Writing into a byte array *)

Lemma splice_app (a b c bs : list byte) (o : nat) :
  length a = o -> length b = length bs ->
  splice (a ++ b ++ c) o bs = a ++ bs ++ c.
Proof.
  intros Ha Hb. unfold splice. subst o.
  rewrite firstn_app, firstn_all, Nat.sub_diag, firstn_O, app_nil_r.
  rewrite skipn_app, skipn_all2 by lia. cbn [app].
  replace (length a + length bs - length a)%nat with (length b) by lia.
  rewrite skipn_app, skipn_all, Nat.sub_diag, skipn_O. reflexivity.
Qed.

Lemma splice_length (bytes bs : list byte) (o : nat) :
  (o + length bs <= length bytes)%nat ->
  length (splice bytes o bs) = length bytes.
Proof.
  intros H. unfold splice.
  rewrite !length_app, length_firstn, length_skipn. lia.
Qed.

(** A byte array splits at any two positions inside it. *)
Lemma split3 (bytes : list byte) (i j : nat) :
  (i + j <= length bytes)%nat ->
  exists a b c, bytes = a ++ b ++ c /\ length a = i /\ length b = j.
Proof.
  intros H.
  exists (firstn i bytes), (firstn j (skipn i bytes)), (skipn j (skipn i bytes)).
  rewrite !firstn_skipn. repeat split.
  - rewrite length_firstn. lia.
  - rewrite length_firstn, length_skipn. lia.
Qed.

(** ** Steps of the machine *)

Lemma bind_run {A B} (c : M A) (k : A -> M B) (m m' : Machine) (a : A) :
  c m = Some (a, m') -> bind c k m = k a m'.
Proof. intros H. unfold bind. rewrite H. reflexivity. Qed.

Lemma bind_inv {A B} (c : M A) (k : A -> M B) (m m'' : Machine) (b : B) :
  bind c k m = Some (b, m'') ->
  exists a m', c m = Some (a, m') /\ k a m' = Some (b, m'').
Proof.
  unfold bind. destruct (c m) as [[a m']|]; [|discriminate].
  intros H. exists a, m'. auto.
Qed.

Lemma store_within_run (p : Ptr) (room : Z) (bs bytes : list byte) (m : Machine) :
  live (heap m) (block p) = Some bytes ->
  0 <= offset p -> size bs <= room -> offset p + room <= size bytes ->
  store_within p room bs m =
    Some (tt, mkMachine
                (set_block (heap m) (block p)
                   (Some (splice bytes (Z.to_nat (offset p)) bs)))
                (trace m)).
Proof.
  intros Hl Ho Hr Hb. unfold store_within. rewrite Hl.
  replace (0 <=? offset p) with true by (symmetry; apply Z.leb_le; lia).
  replace (size bs <=? room) with true by (symmetry; apply Z.leb_le; lia).
  replace (offset p + room <=? size bytes) with true
    by (symmetry; apply Z.leb_le; lia).
  reflexivity.
Qed.

Lemma store_within_inv (p : Ptr) (room : Z) (bs : list byte) (m m' : Machine) u :
  store_within p room bs m = Some (u, m') ->
  exists bytes,
    live (heap m) (block p) = Some bytes /\
    0 <= offset p /\ size bs <= room /\ offset p + room <= size bytes /\
    m' = mkMachine
           (set_block (heap m) (block p)
              (Some (splice bytes (Z.to_nat (offset p)) bs)))
           (trace m).
Proof.
  unfold store_within. destruct (live (heap m) (block p)) as [bytes|]; [|discriminate].
  destruct (0 <=? offset p) eqn:E1; [|discriminate].
  destruct (size bs <=? room) eqn:E2; [|discriminate].
  destruct (offset p + room <=? size bytes) eqn:E3; [|discriminate].
  cbn [andb]. intros H. inversion H; subst. exists bytes.
  apply Z.leb_le in E1, E2, E3. auto.
Qed.

Lemma store_run (p : Ptr) (bs bytes : list byte) (m : Machine) :
  live (heap m) (block p) = Some bytes ->
  0 <= offset p -> offset p + size bs <= size bytes ->
  offset p + size bs < 2 ^ 64 ->
  store p bs m =
    Some (tt, mkMachine
                (set_block (heap m) (block p)
                   (Some (splice bytes (Z.to_nat (offset p)) bs)))
                (trace m)).
Proof.
  intros Hl Ho Hb Ha. unfold store.
  replace (offset p + size bs <? 2 ^ 64) with true
    by (symmetry; apply Z.ltb_lt; lia).
  apply store_within_run; auto; lia.
Qed.

Lemma store_inv (p : Ptr) (bs : list byte) (m m' : Machine) u :
  store p bs m = Some (u, m') ->
  exists bytes,
    live (heap m) (block p) = Some bytes /\
    0 <= offset p /\ offset p + size bs <= size bytes /\
    offset p + size bs < 2 ^ 64 /\
    m' = mkMachine
           (set_block (heap m) (block p)
              (Some (splice bytes (Z.to_nat (offset p)) bs)))
           (trace m).
Proof.
  unfold store. destruct (Z.ltb_spec (offset p + size bs) (2 ^ 64)) as [Ha|];
    [|discriminate].
  intros H. apply store_within_inv in H as (bytes & Hl & Ho & _ & Hb & ->).
  exists bytes. auto.
Qed.

(** ** The scratch buffer *)

Lemma faststring_new_ok (m : Machine) :
  exists s m', faststring_new m = Some (s, m') /\ faststring_ok (heap m') s.
Proof.
  eexists _, _. split; [reflexivity|].
  exists []. cbn. rewrite live_app_new. repeat split; lia.
Qed.

Lemma faststring_resize_run (s : faststring) (newsize : Z) (m : Machine) :
  faststring_ok (heap m) s -> 0 <= newsize < 2 ^ 64 ->
  exists s' m',
    faststring_resize s newsize m = Some (s', m') /\
    faststring_ok (heap m') s' /\
    len_ s' = newsize /\
    capacity_ s' = Z.max (capacity_ s) newsize /\
    trace m' = trace m ++ resize_events (length (heap m)) s newsize.
Proof.
  intros (bytes & Hlive & Hsize & Hlen) Hn.
  unfold faststring_resize, resize_events.
  destruct (newsize >? capacity_ s) eqn:Hgrow.
  - apply Z.gtb_lt in Hgrow.
    pose proof (live_lt _ _ _ Hlive) as Hlt.
    set (old := firstn (Z.to_nat (len_ s)) (skipn (Z.to_nat 0) bytes)).
    assert (Hload : load (mkPtr (data_ s) 0) (len_ s) m = Some (old, m)).
    { unfold load. cbn [block offset]. rewrite Hlive.
      replace (0 <=? 0) with true by reflexivity.
      replace (0 <=? len_ s) with true by (symmetry; apply Z.leb_le; lia).
      replace (0 + len_ s <=? size bytes) with true
        by (symmetry; apply Z.leb_le; lia).
      reflexivity. }
    assert (Hold : size old = len_ s).
    { unfold old, size in *. cbn [Z.to_nat skipn]. rewrite length_firstn. lia. }
    set (zeros := repeat Byte.x00 (Z.to_nat newsize)).
    assert (Hzeros : size zeros = newsize).
    { unfold zeros, size. rewrite repeat_length. lia. }
    set (b := length (heap m)).
    set (m1 := mkMachine (heap m ++ [Some zeros]) (trace m ++ [EvNew b newsize])).
    assert (Hnew : new_array newsize m = Some (b, m1)) by reflexivity.
    set (filled := splice zeros (Z.to_nat 0) old).
    set (m2 := mkMachine (set_block (heap m1) b (Some filled)) (trace m1)).
    assert (Hstore : store (mkPtr b 0) old m1 = Some (tt, m2)).
    { apply store_run; cbn [block offset heap m1]; try lia.
      apply live_app_new. }
    assert (Hfilled : size filled = newsize).
    { unfold filled, size in *. rewrite splice_length; cbn [Z.to_nat]; lia. }
    assert (Hlive2 : live (heap m2) (data_ s) = Some bytes).
    { cbn [heap m2 m1]. rewrite live_set_block_other by (unfold b; lia).
      apply live_app_old. exact Hlive. }
    set (m3 := mkMachine (set_block (heap m2) (data_ s) None)
                         (trace m2 ++ [EvDelete (data_ s)])).
    assert (Hdel : delete_array (data_ s) m2 = Some (tt, m3)).
    { unfold delete_array. rewrite Hlive2. reflexivity. }
    exists (mkFaststring b newsize newsize), m3. split.
    { rewrite (bind_run _ _ _ _ _ Hload). cbv beta.
      rewrite (bind_run _ _ _ _ _ Hnew). cbv beta.
      rewrite (bind_run _ _ _ _ _ Hstore). cbv beta.
      rewrite (bind_run _ _ _ _ _ Hdel). reflexivity. }
    split.
    { exists filled. cbn [data_ len_ capacity_ heap m3 m2 m1].
      rewrite live_set_block_other by (unfold b; lia).
      rewrite live_set_block_same by (rewrite length_app; cbn; unfold b; lia).
      repeat split; lia. }
    cbn [len_ capacity_ trace m3 m2 m1]. repeat split; try lia.
    rewrite <- app_assoc. reflexivity.
  - assert (newsize <= capacity_ s).
    { destruct (Z.gtb_spec newsize (capacity_ s)); [discriminate|lia]. }
    exists (mkFaststring (data_ s) newsize (capacity_ s)), m.
    split; [reflexivity|]. split.
    { exists bytes. cbn [data_ len_ capacity_]. repeat split; try lia; auto. }
    cbn [len_ capacity_]. rewrite app_nil_r. repeat split; lia.
Qed.

(** Whatever [resize] returns, the storage did not shrink and the length is
    the one asked for. *)
Lemma faststring_resize_inv (s s' : faststring) (newsize : Z) (m m' : Machine) :
  faststring_resize s newsize m = Some (s', m') ->
  len_ s' = newsize /\ capacity_ s' = Z.max (capacity_ s) newsize.
Proof.
  unfold faststring_resize.
  destruct (Z.gtb_spec newsize (capacity_ s)) as [Hgt|Hle].
  - intros H.
    apply bind_inv in H as (old & m1 & _ & H).
    apply bind_inv in H as (b & m2 & _ & H).
    apply bind_inv in H as (u1 & m3 & _ & H).
    apply bind_inv in H as (u2 & m4 & _ & H).
    inversion H; subst. cbn. lia.
  - intros H. inversion H; subst. cbn. lia.
Qed.

(** ** Calls through the codec *)

Lemma call_MaxCompressedLength_run (codec : CompressionCodec.t) (n : Z)
    (m : Machine) :
  call_MaxCompressedLength codec n m =
    Some (to_size_t (CompressionCodec.MaxCompressedLength codec n),
          mkMachine (heap m) (trace m ++ [EvMaxCompressedLength n])).
Proof. reflexivity. Qed.

Lemma call_Compress_run (codec : CompressionCodec.t) (input : list Slice)
    (dest : Ptr) (room : Z) (m : Machine) (s : Status)
    (written bytes : list byte) :
  CompressionCodec.Compress codec input = (s, written) ->
  live (heap m) (block dest) = Some bytes ->
  0 <= offset dest ->
  offset dest + size written <= size bytes ->
  offset dest + size written < 2 ^ 64 ->
  call_Compress codec input dest room m =
    Some ((s, to_size_t (size written)),
          mkMachine
            (set_block (heap m) (block dest)
               (Some (splice bytes (Z.to_nat (offset dest)) written)))
            (trace m ++ [EvCodecCompress input dest room])).
Proof.
  intros Hc Hl Ho Hb Ha. unfold call_Compress, bind, emit. rewrite Hc.
  rewrite (store_run dest written bytes) by (cbn; auto).
  reflexivity.
Qed.

Lemma subslice_run (base : Slice) (off n : Z) (m : Machine) :
  0 <= off -> 0 <= n -> off + n <= size base ->
  subslice base off n m
    = Some (firstn (Z.to_nat n) (skipn (Z.to_nat off) base), m).
Proof.
  intros Ho Hn Hb. unfold subslice.
  replace (0 <=? off) with true by (symmetry; apply Z.leb_le; lia).
  replace (0 <=? n) with true by (symmetry; apply Z.leb_le; lia).
  replace (off + n <=? size base) with true
    by (symmetry; apply Z.leb_le; lia).
  reflexivity.
Qed.

Lemma subslice_inv (base out : Slice) (off n : Z) (m m' : Machine) :
  subslice base off n m = Some (out, m') ->
  0 <= off /\ 0 <= n /\ off + n <= size base /\ m' = m /\
  out = firstn (Z.to_nat n) (skipn (Z.to_nat off) base).
Proof.
  unfold subslice.
  destruct (Z.leb_spec 0 off) as [Ho|]; [|discriminate].
  destruct (Z.leb_spec 0 n) as [Hn|]; [|discriminate].
  destruct (Z.leb_spec (off + n) (size base)) as [Hb|]; [|discriminate].
  cbn [andb]. intros Hsome. inversion Hsome; subst. auto.
Qed.

Lemma call_DecodeFixed32_run (base : Slice) (off : nat) (m : Machine) :
  Z.of_nat off + 4 <= size base ->
  call_DecodeFixed32 base off m
    = Some (DecodeFixed32 (skipn off base),
            mkMachine (heap m) (trace m ++ [EvDecodeFixed32 (Z.of_nat off)])).
Proof.
  intros Hb. unfold call_DecodeFixed32.
  rewrite (bind_run _ _ _ _ _
             (subslice_run base (Z.of_nat off) 4 m ltac:(lia) ltac:(lia) Hb)).
  rewrite Nat2Z.id. change (Z.to_nat 4) with 4%nat.
  rewrite DecodeFixed32_firstn by lia. reflexivity.
Qed.

Lemma call_DecodeFixed32_inv (base : Slice) (off : nat) (m m' : Machine)
    (v : Z) :
  call_DecodeFixed32 base off m = Some (v, m') ->
  Z.of_nat off + 4 <= size base.
Proof.
  unfold call_DecodeFixed32. intros H.
  apply bind_inv in H as (field & m1 & Hsub & _).
  apply subslice_inv in Hsub. lia.
Qed.

Lemma call_Uncompress_run (codec : CompressionCodec.t) (compressed : Slice)
    (dest : Ptr) (n : Z) (m : Machine) (s : Status)
    (written bytes : list byte) :
  CompressionCodec.Uncompress codec compressed n = (s, written) ->
  live (heap m) (block dest) = Some bytes ->
  0 <= offset dest -> size written <= n ->
  offset dest + n <= size bytes ->
  call_Uncompress codec compressed dest n m =
    Some (s,
          mkMachine
            (set_block (heap m) (block dest)
               (Some (splice bytes (Z.to_nat (offset dest)) written)))
            (trace m ++ [EvCodecUncompress compressed dest n])).
Proof.
  intros Hc Hl Ho Hr Hb. unfold call_Uncompress, bind, emit. rewrite Hc.
  rewrite (store_within_run dest n written bytes) by (cbn; auto).
  reflexivity.
Qed.

(** ** [Compress] from the codec call on *)

Section CompressTail.

Import CompressedBlockBuilder.

Variable this : CompressedBlockBuilder.t.
Variable data_slices : list Slice.
Variable result : SliceRef.

Let data_size := total_size data_slices.

(** From the codec call on: the codec's bytes fit the buffer's storage. *)
Lemma Compress_tail_run (m1 : Machine) (bytes : list byte) (s : Status)
    (written : list byte) :
  live (heap m1) (data_ (buffer_ this)) = Some bytes ->
  CompressionCodec.Compress (codec_ this) data_slices = (s, written) ->
  8 + size written <= size bytes ->
  8 + size written < 2 ^ 64 ->
  exists (m' : Machine) (head tail : list byte),
    Compress_tail this data_slices result data_size m1 =
      Some ((if ok s then Status_OK else s,
             this,
             if ok s
             then mkSlice (mkPtr (data_ (buffer_ this)) 0) (size written + 8)
             else result),
            m') /\
    live (heap m') (data_ (buffer_ this)) =
      Some ((if ok s
             then InlineEncodeFixed32 (size written)
                    ++ InlineEncodeFixed32 data_size
             else head) ++ written ++ tail) /\
    length head = 8%nat /\
    size tail = size bytes - 8 - size written /\
    trace m' =
      trace m1 ++ [EvCodecCompress data_slices
                     (mkPtr (data_ (buffer_ this)) 8)
                     (len_ (buffer_ this) - 8)].
Proof.
  intros Hlive Hcodec Hlen Hfit.
  pose proof (size_nonneg written) as Hw.
  set (buffer := buffer_ this) in *.
  destruct (split3 bytes 8 (length written))
    as (head & b & tail & -> & Hhead & Hb).
  { unfold size in *. lia. }
  destruct (split3 head 4 4) as (h0 & h1 & h2 & -> & Hh0 & Hh1); [lia|].
  assert (h2 = []) as ->.
  { rewrite !length_app in Hhead.
    destruct h2; [reflexivity|cbn in Hhead; lia]. }
  rewrite app_nil_r in *.
  assert (Sh0 : size h0 = 4) by (unfold size; lia).
  assert (Sh1 : size h1 = 4) by (unfold size; lia).
  set (head := h0 ++ h1) in *.
  assert (Shead : size head = 8) by (unfold size; lia).
  assert (Sb : size b = size written) by (unfold size; lia).
  rewrite !size_app in Hlen. rewrite !size_app.
  (* the codec writes the payload *)
  pose proof (call_Compress_run (codec_ this) data_slices
                (mkPtr (data_ buffer) 8) (len_ buffer - 8) m1 s written
                (head ++ b ++ tail) Hcodec Hlive) as Hcall.
  cbn [block offset] in Hcall.
  rewrite splice_app in Hcall by (auto; lia).
  specialize (Hcall ltac:(lia) ltac:(rewrite !size_app; lia) ltac:(lia)).
  set (m2 := mkMachine _ _) in Hcall.
  assert (Hlive2 : live (heap m2) (data_ buffer)
                   = Some (head ++ written ++ tail)).
  { apply live_set_block_same. eapply live_lt. exact Hlive. }
  unfold Compress_tail. fold buffer.
  rewrite (bind_run _ _ _ _ _ Hcall). cbv beta iota.
  destruct (ok s) eqn:Hs; cbn [negb].
  - (* the header is written *)
    rewrite (to_size_t_small (size written)) by lia.
    set (e1 := InlineEncodeFixed32 (size written)) in *.
    set (e2 := InlineEncodeFixed32 data_size) in *.
    assert (Se1 : size e1 = 4) by reflexivity.
    assert (Se2 : size e2 = 4) by reflexivity.
    unfold head in Hlive2. rewrite <- (app_assoc h0 h1) in Hlive2.
    pose proof (store_run (mkPtr (data_ buffer) 0) e1
                  (h0 ++ h1 ++ written ++ tail) m2 Hlive2) as Hst1.
    cbn [block offset] in Hst1.
    rewrite (splice_app [] h0 (h1 ++ written ++ tail)) in Hst1
      by (cbn; auto).
    cbn [app] in Hst1.
    specialize (Hst1 ltac:(lia) ltac:(rewrite !size_app; lia) ltac:(lia)).
    set (m3 := mkMachine _ _) in Hst1.
    assert (Hlive3 : live (heap m3) (data_ buffer)
                     = Some (e1 ++ h1 ++ written ++ tail)).
    { cbn [heap m3]. apply live_set_block_same.
      eapply live_lt. exact Hlive2. }
    pose proof (store_run (mkPtr (data_ buffer) 4) e2
                  (e1 ++ h1 ++ written ++ tail) m3 Hlive3) as Hst2.
    cbn [block offset] in Hst2.
    rewrite (splice_app e1 h1 (written ++ tail)) in Hst2
      by (cbn; auto).
    specialize (Hst2 ltac:(lia) ltac:(rewrite !size_app; lia) ltac:(lia)).
    set (m4 := mkMachine _ _) in Hst2.
    rewrite (bind_run _ _ _ _ _ Hst1). cbv beta.
    rewrite (bind_run _ _ _ _ _ Hst2). cbv beta.
    rewrite (to_size_t_small (size written + 8)) by lia.
    exists m4, (h0 ++ h1), tail. split; [reflexivity|]. split.
    { cbn [heap m4]. rewrite live_set_block_same
        by (eapply live_lt; exact Hlive3).
      rewrite <- app_assoc. reflexivity. }
    split; [exact Hhead|]. split; [lia|]. reflexivity.
  - exists m2, head, tail. split; [reflexivity|].
    split; [exact Hlive2|].
    split; [exact Hhead|]. split; [lia|]. reflexivity.
Qed.

(** Conversely, when the rest of [Compress] returns at all, the codec's
    bytes did fit the storage. *)
Lemma Compress_tail_inv (m1 m' : Machine)
    (x : Status * CompressedBlockBuilder.t * SliceRef) :
  Compress_tail this data_slices result data_size m1 = Some (x, m') ->
  exists (bytes : list byte),
    live (heap m1) (data_ (buffer_ this)) = Some bytes /\
    8 + size (snd (CompressionCodec.Compress (codec_ this) data_slices))
      <= size bytes /\
    8 + size (snd (CompressionCodec.Compress (codec_ this) data_slices))
      < 2 ^ 64.
Proof.
  unfold Compress_tail. intros H.
  apply bind_inv in H as ([s cs] & m2 & Hcall & _).
  unfold call_Compress in Hcall.
  apply bind_inv in Hcall as (u & m0 & Hemit & Hcall).
  inversion Hemit; subst; clear Hemit.
  destruct (CompressionCodec.Compress (codec_ this) data_slices)
    as [s' written].
  apply bind_inv in Hcall as (u' & m3 & Hstore & _).
  apply store_inv in Hstore as (bytes & Hl & Ho & Hb & Ha & _).
  cbn [block offset heap snd] in *. exists bytes. repeat split; auto; lia.
Qed.

End CompressTail.

(** ** [Compress], case by case *)

Section CompressCases.

Import CompressedBlockBuilder.

Variable this : CompressedBlockBuilder.t.
Variable data_slices : list Slice.
Variable result : SliceRef.

Let data_size := total_size data_slices.
Let max_compressed_size :=
  to_size_t (CompressionCodec.MaxCompressedLength (codec_ this) data_size).

(** The machine once the estimate has been asked for. *)
Let estimated (m : Machine) : Machine :=
  mkMachine (heap m) (trace m ++ [EvMaxCompressedLength data_size]).

Lemma Compress_unfold (m : Machine) :
  Compress this data_slices result m =
    (if max_compressed_size >? compressed_size_limit_ this then
       ret (Status_InvalidArgument
              (StringPrintf
                 "estimated max size %lu is greater than the expected %lu"
                 [max_compressed_size; compressed_size_limit_ this]),
            this, result)
     else
       buffer <- faststring_resize (buffer_ this)
                   (to_size_t (8 + max_compressed_size)) ;;
       Compress_tail (mk (codec_ this) (compressed_size_limit_ this) buffer)
         data_slices result data_size)
      (estimated m).
Proof. reflexivity. Qed.

(** The pre-check fails: nothing but the estimate has happened. *)
Lemma Compress_rejects (m : Machine) :
  max_compressed_size > compressed_size_limit_ this ->
  Compress this data_slices result m =
    Some ((Status_InvalidArgument
             (StringPrintf
                "estimated max size %lu is greater than the expected %lu"
                [max_compressed_size; compressed_size_limit_ this]),
           this, result),
          estimated m).
Proof.
  intros Hgt. rewrite Compress_unfold.
  replace (max_compressed_size >? compressed_size_limit_ this) with true
    by (symmetry; apply Z.gtb_lt; lia).
  reflexivity.
Qed.

(** The pre-check passes, the header fits [size_t] and the codec stays
    within its estimate: the call runs to its end. *)
Lemma Compress_accepts (m : Machine) (s : Status) (written : list byte) :
  faststring_ok (heap m) (buffer_ this) ->
  max_compressed_size <= compressed_size_limit_ this ->
  8 + max_compressed_size < 2 ^ 64 ->
  CompressionCodec.Compress (codec_ this) data_slices = (s, written) ->
  size written <= max_compressed_size ->
  exists (buffer : faststring) (m' : Machine) (head tail : list byte),
    Compress this data_slices result m =
      Some ((if ok s then Status_OK else s,
             mk (codec_ this) (compressed_size_limit_ this) buffer,
             if ok s
             then mkSlice (mkPtr (data_ buffer) 0) (size written + 8)
             else result),
            m') /\
    len_ buffer = 8 + max_compressed_size /\
    capacity_ buffer = Z.max (capacity_ (buffer_ this)) (len_ buffer) /\
    live (heap m') (data_ buffer) =
      Some ((if ok s
             then InlineEncodeFixed32 (size written)
                    ++ InlineEncodeFixed32 data_size
             else head) ++ written ++ tail) /\
    length head = 8%nat /\
    size tail = capacity_ buffer - 8 - size written /\
    trace m' =
      trace m ++ [EvMaxCompressedLength data_size]
        ++ resize_events (length (heap m)) (buffer_ this) (len_ buffer)
        ++ [EvCodecCompress data_slices (mkPtr (data_ buffer) 8)
              max_compressed_size].
Proof.
  intros Hok Hlimit Hfit Hcodec Hbound.
  pose proof (to_size_t_range
                (CompressionCodec.MaxCompressedLength (codec_ this) data_size))
    as Hmax. fold max_compressed_size in Hmax.
  destruct (faststring_resize_run (buffer_ this) (8 + max_compressed_size)
              (estimated m))
    as (buffer & m1 & Hresize & (bytes & Hlive & Hsize & Hlen) & Hlen' & Hcap & Htr);
    [exact Hok|lia|].
  set (this' := mk (codec_ this) (compressed_size_limit_ this) buffer).
  destruct (Compress_tail_run this' data_slices result m1 bytes s written)
    as (m' & head & tail & Htail & Hlive' & Hhead & Htl & Htr');
    cbn [buffer_ codec_ this']; auto; try lia.
  change (buffer_ this') with buffer in *.
  exists buffer, m', head, tail.
  rewrite Compress_unfold.
  replace (max_compressed_size >? compressed_size_limit_ this) with false
    by (symmetry; destruct (Z.gtb_spec max_compressed_size
                              (compressed_size_limit_ this)); [lia|reflexivity]).
  rewrite (to_size_t_small (8 + max_compressed_size)) by lia.
  rewrite (bind_run _ _ _ _ _ Hresize). cbv beta. fold this'.
  split; [exact Htail|]. split; [lia|]. split; [lia|].
  split; [exact Hlive'|]. split; [exact Hhead|]. split; [lia|].
  rewrite Htr', Htr. cbn [estimated trace heap].
  rewrite Hlen', <- !app_assoc.
  replace (8 + max_compressed_size - 8) with max_compressed_size by lia.
  reflexivity.
Qed.

End CompressCases.

(** Every way [Compress] can return. *)
Lemma Compress_returns (this this' : CompressedBlockBuilder.t)
    (data_slices : list Slice) (result result' : SliceRef)
    (m m' : Machine) (st : Status) :
  let data_size := CompressedBlockBuilder.total_size data_slices in
  let codec := CompressedBlockBuilder.codec_ this in
  let limit := CompressedBlockBuilder.compressed_size_limit_ this in
  let max_compressed_size :=
    to_size_t (CompressionCodec.MaxCompressedLength codec data_size) in
  let estimated :=
    mkMachine (heap m) (trace m ++ [EvMaxCompressedLength data_size]) in
  CompressedBlockBuilder.Compress this data_slices result m
    = Some ((st, this', result'), m') ->
  (max_compressed_size > limit /\
   st = Status_InvalidArgument
          (StringPrintf
             "estimated max size %lu is greater than the expected %lu"
             [max_compressed_size; limit]) /\
   this' = this /\ result' = result /\ m' = estimated)
  \/
  (max_compressed_size <= limit /\
   exists (buffer : faststring) (m1 : Machine) (s : Status)
          (written head tail : list byte),
     faststring_resize (CompressedBlockBuilder.buffer_ this)
       (to_size_t (8 + max_compressed_size)) estimated = Some (buffer, m1) /\
     CompressionCodec.Compress codec data_slices = (s, written) /\
     8 + size written < 2 ^ 64 /\
     this' = CompressedBlockBuilder.mk codec limit buffer /\
     st = (if ok s then Status_OK else s) /\
     result' = (if ok s
                then mkSlice (mkPtr (data_ buffer) 0) (size written + 8)
                else result) /\
     live (heap m') (data_ buffer) =
       Some ((if ok s
              then InlineEncodeFixed32 (size written)
                     ++ InlineEncodeFixed32 data_size
              else head) ++ written ++ tail) /\
     trace m' =
       trace m1 ++ [EvCodecCompress data_slices (mkPtr (data_ buffer) 8)
                      (len_ buffer - 8)] /\
     length head = 8%nat /\
     exists bytes : list byte,
       live (heap m1) (data_ buffer) = Some bytes /\
       size tail = size bytes - 8 - size written).
Proof.
  intros data_size codec limit max_compressed_size estimated H.
  rewrite Compress_unfold in H.
  fold data_size codec limit max_compressed_size estimated in H.
  destruct (Z.gtb_spec max_compressed_size limit) as [Hgt|Hle].
  - left. inversion H; subst. repeat split; auto. lia.
  - right. split; [exact Hle|].
    apply bind_inv in H as (buffer & m1 & Hresize & Htail).
    pose proof (faststring_resize_inv _ _ _ _ _ Hresize) as [Hlen _].
    pose proof (to_size_t_range (8 + max_compressed_size)) as Hrange.
    pose proof (Compress_tail_inv _ _ _ _ _ _ Htail)
      as (bytes & Hlive & Hbound & Hroom).
    cbn [CompressedBlockBuilder.buffer_ CompressedBlockBuilder.codec_] in *.
    destruct (CompressionCodec.Compress codec data_slices) as [s written] eqn:Hc.
    cbn [snd] in Hbound, Hroom.
    destruct (Compress_tail_run
                (CompressedBlockBuilder.mk codec limit buffer)
                data_slices result m1 bytes s written)
      as (m'' & head & tail & Hrun & Hlive' & Hhead & Htl & Htr);
      cbn [CompressedBlockBuilder.buffer_ CompressedBlockBuilder.codec_];
      auto; try lia.
    cbn [CompressedBlockBuilder.buffer_] in *.
    fold data_size in Hrun, Hlive'.
    rewrite Hrun in Htail. inversion Htail; subst.
    exists buffer, m1, s, written, head, tail. repeat split; auto.
    exists bytes. split; assumption.
Qed.

(** A returning call leaves the scratch buffer well formed. *)
Lemma Compress_keeps_buffer_ok (this this' : CompressedBlockBuilder.t)
    (data_slices : list Slice) (result result' : SliceRef)
    (m m' : Machine) (st : Status) :
  faststring_ok (heap m) (CompressedBlockBuilder.buffer_ this) ->
  CompressedBlockBuilder.Compress this data_slices result m
    = Some ((st, this', result'), m') ->
  faststring_ok (heap m') (CompressedBlockBuilder.buffer_ this').
Proof.
  intros Hok Hrun.
  apply Compress_returns in Hrun as [(_ & _ & -> & _ & ->)|(_ & Hrun)];
    [exact Hok|].
  destruct Hrun as (buffer & m1 & s & written & head & tail
                    & Hresize & _ & Hbound & -> & _ & _ & Hlive & _ & Hhead
                    & bytes & Hlive1 & Htail).
  pose proof (to_size_t_range
                (8 + to_size_t
                       (CompressionCodec.MaxCompressedLength
                          (CompressedBlockBuilder.codec_ this)
                          (CompressedBlockBuilder.total_size data_slices))))
    as Hrange.
  destruct (faststring_resize_run (CompressedBlockBuilder.buffer_ this) _
              (mkMachine (heap m)
                 (trace m
                    ++ [EvMaxCompressedLength
                          (CompressedBlockBuilder.total_size data_slices)]))
              Hok Hrange)
    as (buffer' & m1' & Hresize' & (bytes' & Hl & Hsz & Hlen) & _).
  rewrite Hresize in Hresize'. inversion Hresize'; subst buffer' m1'.
  rewrite Hlive1 in Hl. inversion Hl; subst bytes'.
  cbn [CompressedBlockBuilder.buffer_].
  eexists. split; [exact Hlive|]. split; [|exact Hlen].
  assert (Shead : size head = 8) by (unfold size; lia).
  destruct (ok s); rewrite !size_app, ?InlineEncodeFixed32_size; lia.
Qed.

(** The constructor on the empty machine. *)
Lemma new_on_empty_machine (codec : CompressionCodec.t) (size_limit : Z) :
  CompressedBlockBuilder.new codec size_limit empty_machine
    = Some (fresh_builder codec (to_size_t size_limit), fresh_machine) /\
  faststring_ok (heap fresh_machine) (mkFaststring 0 0 0).
Proof.
  split; [reflexivity|]. exists []. cbn. repeat split; lia.
Qed.

(** ** Reading a view *)

Lemma load_prefix (b : nat) (pre tail : list byte) (m : Machine) :
  live (heap m) b = Some (pre ++ tail) ->
  load (mkPtr b 0) (size pre) m = Some (pre, m).
Proof.
  intros Hlive. unfold load. cbn [block offset]. rewrite Hlive.
  pose proof (size_nonneg pre). pose proof (size_nonneg tail).
  replace (0 <=? 0) with true by reflexivity.
  replace (0 <=? size pre) with true by (symmetry; apply Z.leb_le; lia).
  replace (0 + size pre <=? size (pre ++ tail)) with true
    by (symmetry; apply Z.leb_le; rewrite size_app; lia).
  cbn [andb Z.to_nat skipn]. unfold size. rewrite Nat2Z.id.
  rewrite firstn_app, firstn_all, Nat.sub_diag, firstn_O, app_nil_r.
  reflexivity.
Qed.

Lemma read_slice_prefix (h : Heap) (b : nat) (pre tail : list byte) :
  live h b = Some (pre ++ tail) ->
  read_slice h (mkSlice (mkPtr b 0) (size pre)) = Some pre.
Proof.
  intros Hlive. unfold read_slice. cbn [data slice_size].
  rewrite (load_prefix b pre tail); [reflexivity|exact Hlive].
Qed.

(** ** Messages *)

Lemma string_of_list_byte_length (l : list byte) :
  String.length (string_of_list_byte l) = length l.
Proof.
  induction l as [|b l IH]; [reflexivity|].
  cbn [string_of_list_byte map string_of_list_ascii String.length length].
  unfold string_of_list_byte in IH. rewrite IH. reflexivity.
Qed.

Lemma ToDebugString_bounded (s : Slice) (max_len : nat) :
  (String.length (ToDebugString s max_len) <= max_len)%nat.
Proof.
  unfold ToDebugString. rewrite string_of_list_byte_length.
  apply firstn_le_length.
Qed.

Lemma ToDebugString_whole (s : Slice) (max_len : nat) :
  (length s <= max_len)%nat ->
  ToDebugString s max_len = string_of_list_byte s.
Proof.
  intros H. unfold ToDebugString. rewrite firstn_all2; auto.
Qed.

Lemma append_empty_r (s : string) : (s ++ "")%string = s.
Proof. induction s as [|c s IH]; cbn; congruence. Qed.

Lemma too_short_message (n : Z) :
  StringPrintf
    "data size %lu is not enough to contains the header. required %lu, buffer"
    [n; 8]
  = ("data size " ++ decimal (to_size_t n)
       ++ " is not enough to contains the header. required 8, buffer")%string.
Proof. reflexivity. Qed.

Lemma over_limit_message (estimate limit : Z) :
  StringPrintf "estimated max size %lu is greater than the expected %lu"
    [estimate; limit]
  = ("estimated max size " ++ decimal (to_size_t estimate)
       ++ " is greater than the expected " ++ decimal (to_size_t limit))%string.
Proof.
  rewrite <- (append_empty_r (decimal (to_size_t limit))). reflexivity.
Qed.

Lemma mismatch_message (compressed_size remaining : Z) :
  StringPrintf
    "compressed size %u does not match remaining length in buffer %lu, buffer"
    [compressed_size; remaining]
  = ("compressed size " ++ decimal (to_uint32 compressed_size)
       ++ " does not match remaining length in buffer "
       ++ decimal (to_size_t remaining) ++ ", buffer")%string.
Proof. reflexivity. Qed.

Lemma oversize_message (printed limit : Z) :
  StringPrintf
    "uncompressed size %u overflows the maximum length %lu, buffer"
    [printed; limit]
  = ("uncompressed size " ++ decimal (to_uint32 printed)
       ++ " overflows the maximum length "
       ++ decimal (to_size_t limit) ++ ", buffer")%string.
Proof. reflexivity. Qed.

(** ** [Uncompress], case by case *)

Section UncompressCases.

Import CompressedBlockDecoder.

Variable this : CompressedBlockDecoder.t.
Variable data : Slice.
Variable result : SliceRef.
Variable m : Machine.

Let compressed_size := DecodeFixed32 data.
Let uncompressed_size := DecodeFixed32 (skipn 4 data).

(** The machine once both header fields have been decoded. *)
Let decoded : Machine :=
  mkMachine (heap m) (trace m ++ [EvDecodeFixed32 0; EvDecodeFixed32 4]).

Lemma Uncompress_short :
  size data < 8 ->
  Uncompress this data result m =
    Some ((Status_Corruption
             (StringPrintf
                "data size %lu is not enough to contains the header. required %lu, buffer"
                [size data; 8])
             (ToDebugString data 50),
           result),
          m).
Proof.
  intros Hlt. unfold Uncompress, CompressedBlockBuilder.kHeaderReservedLength.
  replace (size data <? 8) with true by (symmetry; apply Z.ltb_lt; lia).
  reflexivity.
Qed.

Lemma Uncompress_header :
  8 <= size data ->
  Uncompress this data result m =
    (if negb (size data =? 8 + compressed_size) then
       ret (Status_Corruption
              (StringPrintf
                 "compressed size %u does not match remaining length in buffer %lu, buffer"
                 [compressed_size; to_size_t (size data - 8)])
              (ToDebugString data 50),
            result)
     else if uncompressed_size >? uncompressed_size_limit_ this then
       ret (Status_Corruption
              (StringPrintf
                 "uncompressed size %u overflows the maximum length %lu, buffer"
                 [compressed_size; uncompressed_size_limit_ this])
              (ToDebugString data 50),
            result)
     else
       buffer <- new_array uncompressed_size ;;
       s <- call_Uncompress (codec_ this)
              (firstn (Z.to_nat compressed_size) (skipn 8 data))
              (mkPtr buffer 0) uncompressed_size ;;
       if negb (ok s) then
         delete_array buffer ;;;
         ret (s, result)
       else
         ret (Status_OK, mkSlice (mkPtr buffer 0) uncompressed_size))
      decoded.
Proof.
  intros Hge. unfold Uncompress, CompressedBlockBuilder.kHeaderReservedLength.
  replace (size data <? 8) with false
    by (symmetry; apply Z.ltb_ge; lia).
  pose proof (DecodeFixed32_range data) as Hcs. fold compressed_size in Hcs.
  rewrite (bind_run _ _ _ _ _
             (call_DecodeFixed32_run data 0 m ltac:(cbn; lia))).
  rewrite (bind_run _ _ _ _ _
             (call_DecodeFixed32_run data 4 _ ltac:(cbn; lia))).
  cbn [heap trace]. change (skipn 0 data) with data.
  change (Z.of_nat 0) with 0. change (Z.of_nat 4) with 4.
  fold compressed_size uncompressed_size.
  rewrite (to_size_t_small (8 + compressed_size)) by lia.
  rewrite <- app_assoc. cbn [app]. fold decoded.
  destruct (Z.eqb_spec (size data) (8 + compressed_size)) as [Heq|Hne];
    cbn [negb]; [|reflexivity].
  destruct (uncompressed_size >? uncompressed_size_limit_ this);
    [reflexivity|].
  rewrite (bind_run _ _ _ _ _
             (subslice_run data 8 compressed_size decoded
                ltac:(lia) ltac:(lia) ltac:(lia))).
  reflexivity.
Qed.

Lemma Uncompress_mismatch :
  8 <= size data -> size data <> 8 + compressed_size ->
  Uncompress this data result m =
    Some ((Status_Corruption
             (StringPrintf
                "compressed size %u does not match remaining length in buffer %lu, buffer"
                [compressed_size; to_size_t (size data - 8)])
             (ToDebugString data 50),
           result),
          decoded).
Proof.
  intros Hge Hne. rewrite Uncompress_header by exact Hge.
  replace (size data =? 8 + compressed_size) with false
    by (symmetry; apply Z.eqb_neq; exact Hne).
  reflexivity.
Qed.

Lemma Uncompress_oversize :
  8 <= size data -> size data = 8 + compressed_size ->
  uncompressed_size > uncompressed_size_limit_ this ->
  Uncompress this data result m =
    Some ((Status_Corruption
             (StringPrintf
                "uncompressed size %u overflows the maximum length %lu, buffer"
                [compressed_size; uncompressed_size_limit_ this])
             (ToDebugString data 50),
           result),
          decoded).
Proof.
  intros Hge Heq Hgt. rewrite Uncompress_header by exact Hge.
  replace (size data =? 8 + compressed_size) with true
    by (symmetry; apply Z.eqb_eq; exact Heq).
  replace (uncompressed_size >? uncompressed_size_limit_ this) with true
    by (symmetry; apply Z.gtb_lt; lia).
  reflexivity.
Qed.

(** The header passes every check: the codec runs on the payload, writing
    into a new allocation of [uncompressed_size] bytes. *)
Lemma Uncompress_decodes (s : Status) (written : list byte) :
  8 <= size data -> size data = 8 + compressed_size ->
  uncompressed_size <= uncompressed_size_limit_ this ->
  CompressionCodec.Uncompress (codec_ this)
    (firstn (Z.to_nat compressed_size) (skipn 8 data)) uncompressed_size
    = (s, written) ->
  size written <= uncompressed_size ->
  let buffer := length (heap m) in
  let contents :=
    splice (repeat Byte.x00 (Z.to_nat uncompressed_size)) 0 written in
  let codec_called :=
    trace decoded
      ++ [EvNew buffer uncompressed_size;
          EvCodecUncompress
            (firstn (Z.to_nat compressed_size) (skipn 8 data))
            (mkPtr buffer 0) uncompressed_size] in
  Uncompress this data result m =
    Some (if ok s
          then ((Status_OK, mkSlice (mkPtr buffer 0) uncompressed_size),
                mkMachine (heap m ++ [Some contents]) codec_called)
          else ((s, result),
                mkMachine (heap m ++ [None])
                          (codec_called ++ [EvDelete buffer]))).
Proof.
  intros Hge Heq Hle Hcodec Hbound buffer contents codec_called.
  pose proof (DecodeFixed32_range (skipn 4 data)) as Hus.
  fold uncompressed_size in Hus.
  rewrite Uncompress_header by exact Hge.
  replace (size data =? 8 + compressed_size) with true
    by (symmetry; apply Z.eqb_eq; exact Heq).
  replace (uncompressed_size >? uncompressed_size_limit_ this) with false
    by (symmetry; destruct (Z.gtb_spec uncompressed_size
                              (uncompressed_size_limit_ this));
        [lia|reflexivity]).
  cbn [negb].
  set (zeros := repeat Byte.x00 (Z.to_nat uncompressed_size)) in *.
  assert (Hzeros : size zeros = uncompressed_size).
  { unfold zeros, size. rewrite repeat_length. lia. }
  set (m1 := mkMachine (heap m ++ [Some zeros])
                       (trace decoded ++ [EvNew buffer uncompressed_size])).
  assert (Hnew : new_array uncompressed_size decoded = Some (buffer, m1))
    by reflexivity.
  rewrite (bind_run _ _ _ _ _ Hnew). cbv beta.
  assert (Hlive : live (heap m1) buffer = Some zeros) by apply live_app_new.
  pose proof (call_Uncompress_run (codec_ this) _ (mkPtr buffer 0)
                uncompressed_size m1 s written zeros Hcodec Hlive) as Hcall.
  cbn [block offset] in Hcall.
  specialize (Hcall ltac:(lia) ltac:(lia) ltac:(lia)).
  rewrite (bind_run _ _ _ _ _ Hcall). cbv beta.
  assert (Hset : forall v, set_block (heap m ++ [Some zeros]) buffer v
                           = heap m ++ [v]).
  { intros v. unfold buffer. clear. induction (heap m) as [|x h IH]; cbn;
      [reflexivity|]. rewrite IH. reflexivity. }
  cbn [heap trace m1] in *. rewrite Hset.
  destruct (ok s); cbn [negb].
  - unfold ret, codec_called, contents. rewrite <- app_assoc. reflexivity.
  - unfold bind, delete_array, ret. cbn [heap trace].
    replace (live (heap m ++ [Some (splice zeros (Z.to_nat 0) written)]) buffer)
      with (Some (splice zeros (Z.to_nat 0) written))
      by (symmetry; apply live_app_new).
    rewrite <- (Hset (Some (splice zeros (Z.to_nat 0) written))).
    rewrite set_block_twice, Hset.
    unfold codec_called. rewrite <- !app_assoc. reflexivity.
Qed.

End UncompressCases.

(** Every way [Uncompress] can return. *)
Lemma Uncompress_returns (this : CompressedBlockDecoder.t) (data : Slice)
    (result result' : SliceRef) (m m' : Machine) (st : Status) :
  let compressed_size := DecodeFixed32 data in
  let uncompressed_size := DecodeFixed32 (skipn 4 data) in
  let compressed := firstn (Z.to_nat compressed_size) (skipn 8 data) in
  let buffer := length (heap m) in
  CompressedBlockDecoder.Uncompress this data result m
    = Some ((st, result'), m') ->
  (ok st = false /\ result' = result)
  \/
  (st = Status_OK /\
   8 <= size data /\ size data = 8 + compressed_size /\
   uncompressed_size
     <= CompressedBlockDecoder.uncompressed_size_limit_ this /\
   exists (s : Status) (written : list byte),
     CompressionCodec.Uncompress (CompressedBlockDecoder.codec_ this)
       compressed uncompressed_size = (s, written) /\
     ok s = true /\ size written <= uncompressed_size /\
     result' = mkSlice (mkPtr buffer 0) uncompressed_size /\
     m' = mkMachine
            (heap m
               ++ [Some (splice (repeat Byte.x00 (Z.to_nat uncompressed_size))
                           0 written)])
            (trace m
               ++ [EvDecodeFixed32 0; EvDecodeFixed32 4;
                   EvNew buffer uncompressed_size;
                   EvCodecUncompress compressed (mkPtr buffer 0)
                     uncompressed_size])).
Proof.
  intros compressed_size uncompressed_size compressed buffer H.
  destruct (Z.lt_ge_cases (size data) 8) as [Hshort|Hlong].
  { rewrite Uncompress_short in H by exact Hshort.
    inversion H; subst. left. split; reflexivity. }
  pose proof H as H0.
  rewrite Uncompress_header in H by exact Hlong.
  fold compressed_size uncompressed_size in H.
  destruct (Z.eqb_spec (size data) (8 + compressed_size)) as [Heq|Hne];
    cbn [negb] in H.
  2:{ inversion H; subst. left. split; reflexivity. }
  destruct (Z.gtb_spec uncompressed_size
              (CompressedBlockDecoder.uncompressed_size_limit_ this))
    as [Hgt|Hle].
  { inversion H; subst. left. split; reflexivity. }
  apply bind_inv in H as (b & m1 & Hnew & H).
  inversion Hnew; subst b m1; clear Hnew.
  apply bind_inv in H as (s & m2 & Hcall & H).
  unfold call_Uncompress in Hcall.
  apply bind_inv in Hcall as (u & m3 & Hemit & Hcall).
  inversion Hemit; subst u m3; clear Hemit.
  fold compressed in Hcall.
  destruct (CompressionCodec.Uncompress (CompressedBlockDecoder.codec_ this)
              compressed uncompressed_size) as [s' written] eqn:Hcodec.
  apply bind_inv in Hcall as (u & m4 & Hstore & Hret).
  inversion Hret; subst s' m4; clear Hret.
  apply store_within_inv in Hstore as (bytes & _ & _ & Hbound & _ & _).
  pose proof (Uncompress_decodes this data result m s written
                Hlong Heq Hle Hcodec Hbound) as Hrun.
  cbv zeta in Hrun. rewrite Hrun in H0. clear Hrun H.
  destruct (ok s) eqn:Hs.
  - inversion H0; subst. right. repeat split; auto.
    exists s, written. repeat split; auto.
    unfold buffer, compressed, compressed_size, uncompressed_size.
    rewrite <- !app_assoc. reflexivity.
  - inversion H0; subst. left. split; [exact Hs|reflexivity].
Qed.

(** ** Framed blocks *)

Section Framed.

Variables compressed_size data_size : Z.
Variable payload : list byte.

Let framed : Slice :=
  InlineEncodeFixed32 compressed_size
    ++ InlineEncodeFixed32 data_size ++ payload.

Lemma framed_size : size framed = 8 + size payload.
Proof.
  unfold framed. rewrite !size_app, !InlineEncodeFixed32_size. lia.
Qed.

Lemma framed_compressed_size :
  DecodeFixed32 framed = to_uint32 compressed_size.
Proof. apply DecodeFixed32_InlineEncodeFixed32. Qed.

Lemma framed_uncompressed_size :
  DecodeFixed32 (skipn 4 framed) = to_uint32 data_size.
Proof.
  unfold framed.
  change (skipn 4 (InlineEncodeFixed32 compressed_size
                     ++ InlineEncodeFixed32 data_size ++ payload))
    with (InlineEncodeFixed32 data_size ++ payload).
  apply DecodeFixed32_InlineEncodeFixed32.
Qed.

Lemma framed_payload : skipn 8 framed = payload.
Proof. reflexivity. Qed.

End Framed.

(** Compressing one block and reading the view back yields the framed
    block, which is then handed to the Decoder. *)
Lemma compress_then_uncompress_framed (builder : CompressedBlockBuilder.t)
    (decoder : CompressedBlockDecoder.t) (input : Slice)
    (result1 result2 : SliceRef) (m : Machine) (s : Status)
    (payload : list byte) :
  let codec := CompressedBlockBuilder.codec_ builder in
  let data_size := CompressedBlockBuilder.total_size [input] in
  let max_compressed_size :=
    to_size_t (CompressionCodec.MaxCompressedLength codec data_size) in
  faststring_ok (heap m) (CompressedBlockBuilder.buffer_ builder) ->
  max_compressed_size
    <= CompressedBlockBuilder.compressed_size_limit_ builder ->
  8 + max_compressed_size < 2 ^ 64 ->
  CompressionCodec.Compress codec [input] = (s, payload) ->
  ok s = true ->
  size payload <= max_compressed_size ->
  exists m1 : Machine,
    compress_then_uncompress builder decoder input result1 result2 m =
      ('(s2, out) <-
         CompressedBlockDecoder.Uncompress decoder
           (InlineEncodeFixed32 (size payload)
              ++ InlineEncodeFixed32 data_size ++ payload)
           result2 ;;
       if negb (ok s2) then ret (s2, None)
       else
         bytes <- load (data out) (slice_size out) ;;
         ret (Status_OK, Some bytes)) m1.
Proof.
  intros codec data_size max_compressed_size Hok Hlimit Hfit Hcodec Hs Hbound.
  destruct (Compress_accepts builder [input] result1 m s payload
              Hok Hlimit Hfit Hcodec Hbound)
    as (buffer & m1 & head & tail & Hrun & _ & _ & Hlive & _).
  rewrite Hs in Hrun, Hlive. fold data_size in Hlive.
  exists m1. unfold compress_then_uncompress, CompressedBlockBuilder.Compress1.
  change ([] ++ [input]) with [input].
  rewrite (bind_run _ _ _ _ _ Hrun). cbv beta iota.
  change (negb (ok Status_OK)) with false. cbv iota.
  cbn [data slice_size].
  set (e1 := InlineEncodeFixed32 (size payload)) in *.
  set (e2 := InlineEncodeFixed32 data_size) in *.
  replace (size payload + 8) with (size (e1 ++ e2 ++ payload))
    by (rewrite !size_app; unfold e1, e2;
        rewrite !InlineEncodeFixed32_size; lia).
  rewrite (bind_run _ _ _ _ _ (load_prefix _ (e1 ++ e2 ++ payload) tail m1
                                 ltac:(rewrite Hlive, <- !app_assoc;
                                       reflexivity))).
  reflexivity.
Qed.

Lemma total_size_one (input : Slice) :
  size input < 2 ^ 64 -> CompressedBlockBuilder.total_size [input] = size input.
Proof.
  intros H. unfold CompressedBlockBuilder.total_size. cbn [fold_left].
  apply to_size_t_small. pose proof (size_nonneg input). lia.
Qed.

Lemma splice_whole (n : nat) (bs : list byte) :
  length bs = n -> splice (repeat Byte.x00 n) 0 bs = bs.
Proof.
  intros H. unfold splice. cbn [firstn app Nat.add].
  rewrite skipn_all2 by (rewrite repeat_length; lia).
  apply app_nil_r.
Qed.

(** ** One call in a sequence *)

Lemma Compress_step (this this' : CompressedBlockBuilder.t)
    (data_slices : list Slice) (result result' : SliceRef)
    (m m' : Machine) (st : Status) :
  CompressedBlockBuilder.Compress this data_slices result m
    = Some ((st, this', result'), m') ->
  let codec := CompressedBlockBuilder.codec_ this in
  let limit := CompressedBlockBuilder.compressed_size_limit_ this in
  let estimate :=
    to_size_t (CompressionCodec.MaxCompressedLength codec
                 (CompressedBlockBuilder.total_size data_slices)) in
  CompressedBlockBuilder.codec_ this' = codec /\
  CompressedBlockBuilder.compressed_size_limit_ this' = limit /\
  capacity_ (CompressedBlockBuilder.buffer_ this)
    <= capacity_ (CompressedBlockBuilder.buffer_ this') /\
  (estimate <= limit ->
   len_ (CompressedBlockBuilder.buffer_ this') = to_size_t (8 + estimate)) /\
  (ok st = true ->
   data result' = mkPtr (data_ (CompressedBlockBuilder.buffer_ this')) 0 /\
   8 <= slice_size result') /\
  (faststring_ok (heap m) (CompressedBlockBuilder.buffer_ this) ->
   ok st = true ->
   slice_size result'
     <= capacity_ (CompressedBlockBuilder.buffer_ this')).
Proof.
  intros Hrun codec limit estimate.
  apply Compress_returns in Hrun as [(Hgt & -> & -> & _)|(_ & Hrun)].
  - fold codec limit estimate in Hgt.
    split; [reflexivity|]. split; [reflexivity|]. split; [lia|].
    split; [lia|]. split; discriminate.
  - destruct Hrun as (buffer & m1 & s & written & head & tail
                      & Hresize & _ & Hfit & -> & -> & -> & _ & _ & _
                      & bytes & Hlive1 & Htail).
    fold codec limit estimate in Hresize.
    pose proof (size_nonneg written) as Hw.
    pose proof (size_nonneg tail) as Ht.
    pose proof (faststring_resize_inv _ _ _ _ _ Hresize) as [Hlen Hcap].
    cbn [CompressedBlockBuilder.buffer_ CompressedBlockBuilder.codec_
         CompressedBlockBuilder.compressed_size_limit_].
    split; [reflexivity|]. split; [reflexivity|]. split; [lia|].
    split; [intros _; exact Hlen|]. split.
    + destruct (ok s) eqn:Hs; [|congruence].
      intros _. cbn [data slice_size]. split; [reflexivity|lia].
    + intros Hok. destruct (ok s) eqn:Hs; [|congruence]. intros _.
      cbn [slice_size].
      destruct (faststring_resize_run (CompressedBlockBuilder.buffer_ this)
                  _ (mkMachine (heap m)
                       (trace m
                          ++ [EvMaxCompressedLength
                                (CompressedBlockBuilder.total_size
                                   data_slices)]))
                  Hok (to_size_t_range (8 + estimate)))
        as (buffer' & m1' & Hresize' & (bytes' & Hl & Hsz & _) & _).
      rewrite Hresize in Hresize'. inversion Hresize'; subst buffer' m1'.
      rewrite Hlive1 in Hl. inversion Hl; subst bytes'. lia.
Qed.

(** The codec that stores its input unchanged inverts itself on every
    input. *)
Lemma store_codec_inverts (input : Slice) :
  CompressionCodec.Compress store_codec [input] = (Status_OK, input) /\
  CompressionCodec.Uncompress store_codec input (size input)
    = (Status_OK, input).
Proof.
  cbn [store_codec CompressionCodec.Compress CompressionCodec.Uncompress
       concat].
  rewrite app_nil_r, Z.eqb_refl. split; reflexivity.
Qed.

(** * The claims *)

(** C1, as stated, fails in two ways.  The header holds lengths in 32
    bits: a block of 2^32 zero bytes, limits of 2^33 on both sides and the
    codec that stores its input unchanged meet every premise, yet the
    Decoder rejects the framed block as corrupt.  And the 8 header bytes
    are added to the estimate in [size_t]: with the largest [size_t] as
    estimate and limit, a one-byte block meets every premise, yet the
    buffer is resized to 7 bytes and the codec writes outside it. *)
Lemma round_trip_fails :
  let input := repeat Byte.x00 (Z.to_nat (2 ^ 32)) in
  let builder := fresh_builder store_codec (2 ^ 33) in
  let decoder := CompressedBlockDecoder.mk store_codec (2 ^ 33) in
  let small := [Byte.x2a] in
  let builder' := fresh_builder pessimistic_codec (2 ^ 64 - 1) in
  let decoder' := CompressedBlockDecoder.mk pessimistic_codec 1000 in
  (to_size_t (CompressionCodec.MaxCompressedLength store_codec (size input))
     <= CompressedBlockBuilder.compressed_size_limit_ builder /\
   size input <= CompressedBlockDecoder.uncompressed_size_limit_ decoder /\
   CompressionCodec.Compress store_codec [input] = (Status_OK, input) /\
   CompressionCodec.Uncompress store_codec input (size input)
     = (Status_OK, input) /\
   size input
     <= to_size_t (CompressionCodec.MaxCompressedLength store_codec
                     (size input)) /\
   exists (st : Status) (m' : Machine),
     compress_then_uncompress builder decoder input no_slice no_slice
       fresh_machine = Some ((st, None), m') /\
     code st = kCorruption)
  /\
  (to_size_t (CompressionCodec.MaxCompressedLength pessimistic_codec
                (size small))
     <= CompressedBlockBuilder.compressed_size_limit_ builder' /\
   size small <= CompressedBlockDecoder.uncompressed_size_limit_ decoder' /\
   CompressionCodec.Compress pessimistic_codec [small] = (Status_OK, small) /\
   CompressionCodec.Uncompress pessimistic_codec small (size small)
     = (Status_OK, small) /\
   size small
     <= to_size_t (CompressionCodec.MaxCompressedLength pessimistic_codec
                     (size small)) /\
   compress_then_uncompress builder' decoder' small no_slice no_slice
     fresh_machine = None).
Proof.
  intros input builder decoder small builder' decoder'.
  split.
  2:{ split; [vm_compute; discriminate|]. split; [vm_compute; discriminate|].
      split; [reflexivity|]. split; [reflexivity|].
      split; [vm_compute; discriminate|reflexivity]. }
  clear small builder' decoder'.
  assert (Hsize : size input = 2 ^ 32).
  { unfold input, size. rewrite repeat_length. apply Z2Nat.id. lia. }
  destruct (store_codec_inverts input) as [Hcompress Huncompress].
  clearbody input.
  assert (Hmax : to_size_t
                   (CompressionCodec.MaxCompressedLength store_codec
                      (CompressedBlockBuilder.total_size [input : Slice]))
                 = 2 ^ 32).
  { rewrite total_size_one by lia.
    cbn [store_codec CompressionCodec.MaxCompressedLength].
    rewrite Hsize. reflexivity. }
  split.
  { cbn [store_codec CompressionCodec.MaxCompressedLength builder
         fresh_builder CompressedBlockBuilder.compressed_size_limit_].
    rewrite Hsize. vm_compute. discriminate. }
  split.
  { cbn [decoder CompressedBlockDecoder.uncompressed_size_limit_].
    rewrite Hsize. vm_compute. discriminate. }
  split; [exact Hcompress|]. split; [exact Huncompress|].
  split.
  { cbn [store_codec CompressionCodec.MaxCompressedLength].
    rewrite Hsize. vm_compute. discriminate. }
  assert (Hok : faststring_ok (heap fresh_machine)
                  (CompressedBlockBuilder.buffer_ builder)).
  { exists []. cbn. repeat split; lia. }
  pose proof (compress_then_uncompress_framed builder decoder input no_slice
                no_slice fresh_machine Status_OK input) as Hrun.
  cbv zeta in Hrun.
  cbn [builder fresh_builder CompressedBlockBuilder.codec_
       CompressedBlockBuilder.compressed_size_limit_] in Hrun.
  rewrite Hmax, Hsize in Hrun.
  specialize (Hrun Hok ltac:(lia) ltac:(lia) Hcompress eq_refl ltac:(lia)).
  destruct Hrun as (m1 & Hrun).
  rewrite Hrun. clear Hrun.
  pose proof (framed_size (2 ^ 32)
                (CompressedBlockBuilder.total_size [input : Slice]) input)
    as Hfs.
  pose proof (framed_compressed_size (2 ^ 32)
                (CompressedBlockBuilder.total_size [input : Slice]) input)
    as Hcs.
  set (framed := InlineEncodeFixed32 (2 ^ 32) ++ _) in *.
  rewrite Hsize in Hfs. change (to_uint32 (2 ^ 32)) with 0 in Hcs.
  pose proof (Uncompress_mismatch decoder framed no_slice m1) as Hbad.
  rewrite Hcs, Hfs in Hbad.
  specialize (Hbad ltac:(lia) ltac:(lia)).
  rewrite (bind_run _ _ _ _ _ Hbad).
  eexists _, _. split; reflexivity.
Qed.

(** C1, amended: take a block shorter than 2^32 bytes whose estimate is
    within the Builder's limit (and leaves room for the 8 header bytes in a
    [size_t]) and whose length is within the Decoder's limit, and a codec,
    the same on both sides, that compresses the block into fewer than 2^32
    bytes, no more than its estimate, and uncompresses that payload back
    into the block.  Then compressing the block and uncompressing the
    framed block succeeds and returns exactly the block. *)
Theorem round_trip (builder : CompressedBlockBuilder.t)
    (decoder : CompressedBlockDecoder.t) (input payload : Slice)
    (result1 result2 : SliceRef) (m : Machine) (s1 s2 : Status) :
  let codec := CompressedBlockBuilder.codec_ builder in
  let max_compressed_size :=
    to_size_t (CompressionCodec.MaxCompressedLength codec (size input)) in
  faststring_ok (heap m) (CompressedBlockBuilder.buffer_ builder) ->
  CompressedBlockDecoder.codec_ decoder = codec ->
  max_compressed_size
    <= CompressedBlockBuilder.compressed_size_limit_ builder ->
  size input <= CompressedBlockDecoder.uncompressed_size_limit_ decoder ->
  CompressionCodec.Compress codec [input] = (s1, payload) ->
  ok s1 = true ->
  CompressionCodec.Uncompress codec payload (size input) = (s2, input) ->
  ok s2 = true ->
  size payload <= max_compressed_size ->
  8 + max_compressed_size < 2 ^ 64 ->
  size input < 2 ^ 32 ->
  size payload < 2 ^ 32 ->
  exists m' : Machine,
    compress_then_uncompress builder decoder input result1 result2 m
      = Some ((Status_OK, Some input), m').
Proof.
  intros codec max_compressed_size Hok Hsame Hlimit Hulimit Hc Hs1 Hu Hs2
         Hbound Hfit Hin Hpay.
  pose proof (size_nonneg input) as Hin0.
  pose proof (size_nonneg payload) as Hpay0.
  assert (Hds : CompressedBlockBuilder.total_size [input] = size input)
    by (apply total_size_one; lia).
  destruct (compress_then_uncompress_framed builder decoder input result1
              result2 m s1 payload) as (m1 & Hrun);
    try rewrite Hds; auto.
  rewrite Hrun, Hds. clear Hrun.
  set (framed := InlineEncodeFixed32 (size payload) ++ _).
  pose proof (framed_size (size payload) (size input) payload) as Hfs.
  pose proof (framed_compressed_size (size payload) (size input) payload)
    as Hcs.
  pose proof (framed_uncompressed_size (size payload) (size input) payload)
    as Hus.
  pose proof (framed_payload (size payload) (size input) payload) as Hfp.
  fold framed in Hfs, Hcs, Hus, Hfp.
  rewrite to_uint32_small in Hcs, Hus by lia.
  pose proof (Uncompress_decodes decoder framed result2 m1 s2 input) as Hdec.
  cbv zeta in Hdec. rewrite Hcs, Hus, Hfp, Hsame in Hdec.
  assert (Hfirst : firstn (Z.to_nat (size payload)) payload = payload)
    by (unfold size; rewrite Nat2Z.id; apply firstn_all).
  rewrite Hfirst in Hdec.
  fold codec in Hdec.
  specialize (Hdec ltac:(lia) ltac:(lia) Hulimit Hu ltac:(lia)).
  rewrite Hs2 in Hdec.
  rewrite splice_whole in Hdec
    by (unfold size; rewrite Nat2Z.id; reflexivity).
  match type of Hdec with _ = Some (_, ?mm) => set (m2 := mm) in Hdec end.
  assert (Hlive : live (heap m2) (length (heap m1)) = Some (input ++ [])).
  { cbn [heap m2]. rewrite app_nil_r. apply live_app_new. }
  rewrite (bind_run _ _ _ _ _ Hdec). cbv beta iota.
  change (negb (ok Status_OK)) with false. cbv iota.
  cbn [data slice_size].
  rewrite (bind_run _ _ _ _ _ (load_prefix _ input [] m2 Hlive)).
  exists m2. reflexivity.
Qed.

(** The round trip on a 10-byte block and on the empty block. *)
Lemma round_trip_witness :
  (exists m' : Machine,
     compress_then_uncompress (fresh_builder rle_codec 1000)
       (CompressedBlockDecoder.new rle_codec 1000)
       (list_byte_of_string "aaaabbbccc") no_slice no_slice fresh_machine
     = Some ((Status_OK, Some (list_byte_of_string "aaaabbbccc")), m'))
  /\
  (exists m' : Machine,
     compress_then_uncompress (fresh_builder rle_codec 1000)
       (CompressedBlockDecoder.new rle_codec 1000)
       [] no_slice no_slice fresh_machine
     = Some ((Status_OK, Some []), m')).
Proof.
  assert (Hok : faststring_ok (heap fresh_machine) (mkFaststring 0 0 0)).
  { exists []. cbn. repeat split; lia. }
  split.
  - apply (round_trip (fresh_builder rle_codec 1000)
             (CompressedBlockDecoder.new rle_codec 1000)
             (list_byte_of_string "aaaabbbccc")
             [Byte.x04; Byte.x61; Byte.x03; Byte.x62; Byte.x03; Byte.x63]
             no_slice no_slice fresh_machine Status_OK Status_OK);
      try exact Hok; try reflexivity; vm_compute; discriminate.
  - apply (round_trip (fresh_builder rle_codec 1000)
             (CompressedBlockDecoder.new rle_codec 1000)
             [] [] no_slice no_slice fresh_machine Status_OK Status_OK);
      try exact Hok; try reflexivity; vm_compute; discriminate.
Defined.

(** C2: when [Compress] returns OK, the view in [*result] is 8 bytes longer
    than the payload the codec produced and reads, from the scratch buffer:
    the four little-endian bytes of the payload length, the four
    little-endian bytes of the combined length of the input ranges, then
    the payload.  (Four bytes hold the low 32 bits of a length.) *)
Theorem Compress_frame_layout (this this' : CompressedBlockBuilder.t)
    (data_slices : list Slice) (result result' : SliceRef)
    (m m' : Machine) (st : Status) :
  CompressedBlockBuilder.Compress this data_slices result m
    = Some ((st, this', result'), m') ->
  ok st = true ->
  let data_size := size (concat data_slices) in
  let payload :=
    snd (CompressionCodec.Compress (CompressedBlockBuilder.codec_ this)
           data_slices) in
  let compressed_size := size payload in
  slice_size result' = 8 + compressed_size /\
  read_slice (heap m') result' =
    Some (le_split 4 compressed_size ++ le_split 4 data_size ++ payload).
Proof.
  intros Hrun Hst data_size payload compressed_size.
  apply Compress_returns in Hrun as [(_ & -> & _)|(_ & Hrun)];
    [discriminate|].
  destruct Hrun as (buffer & m1 & s & written & head & tail
                    & _ & Hcodec & _ & _ & -> & -> & Hlive & _).
  unfold compressed_size, payload. rewrite Hcodec. cbn [snd].
  destruct (ok s) eqn:Hs; [|congruence].
  cbn [slice_size]. split; [lia|].
  rewrite <- (le_split_to_uint32 (size written)).
  rewrite <- (le_split_to_uint32 data_size).
  unfold data_size. rewrite <- total_size_low.
  rewrite <- !InlineEncodeFixed32_le_split.
  set (e1 := InlineEncodeFixed32 (size written)) in *.
  set (e2 := InlineEncodeFixed32
               (CompressedBlockBuilder.total_size data_slices)) in *.
  replace (size written + 8) with (size (e1 ++ e2 ++ written))
    by (rewrite !size_app; unfold e1, e2;
        rewrite !InlineEncodeFixed32_size; lia).
  apply read_slice_prefix with (tail := tail).
  rewrite Hlive, <- !app_assoc. reflexivity.
Qed.

(** The spec's example: a 10-byte input that the run-length codec turns
    into 6 bytes. *)
Lemma Compress_frame_layout_witness :
  let view := mkSlice (mkPtr 1 0) 14 in
  let after :=
    mkMachine
      [None;
       Some ([Byte.x06; Byte.x00; Byte.x00; Byte.x00;
              Byte.x0a; Byte.x00; Byte.x00; Byte.x00;
              Byte.x04; Byte.x61; Byte.x03; Byte.x62; Byte.x03; Byte.x63]
               ++ repeat Byte.x00 14)]
      [EvNew 0 0; EvMaxCompressedLength 10; EvNew 1 28; EvDelete 0;
       EvCodecCompress [list_byte_of_string "aaaabbbccc"] (mkPtr 1 8) 20] in
  CompressedBlockBuilder.Compress (fresh_builder rle_codec 1000)
    [list_byte_of_string "aaaabbbccc"] no_slice fresh_machine
  = Some ((Status_OK,
           CompressedBlockBuilder.mk rle_codec 1000 (mkFaststring 1 28 28),
           view),
          after)
  /\
  read_slice (heap after) view =
    Some [Byte.x06; Byte.x00; Byte.x00; Byte.x00;
          Byte.x0a; Byte.x00; Byte.x00; Byte.x00;
          Byte.x04; Byte.x61; Byte.x03; Byte.x62; Byte.x03; Byte.x63].
Proof.
  intros view after.
  assert (Hrun : CompressedBlockBuilder.Compress (fresh_builder rle_codec 1000)
                   [list_byte_of_string "aaaabbbccc"] no_slice fresh_machine
                 = Some ((Status_OK,
                          CompressedBlockBuilder.mk rle_codec 1000
                            (mkFaststring 1 28 28),
                          view),
                         after))
    by reflexivity.
  split; [exact Hrun|].
  exact (proj2 (Compress_frame_layout _ _ _ _ _ _ _ _ Hrun eq_refl)).
Defined.

(** C3: a block of at least 8 bytes whose length is not 8 plus the
    compressed size in its first four bytes makes [Uncompress] return a
    Corruption status.  By then only the two header fields have been
    decoded: the heap is as it was (nothing was allocated) and the trace
    holds no codec call. *)
Theorem Uncompress_length_mismatch (this : CompressedBlockDecoder.t)
    (data : Slice) (result : SliceRef) (m : Machine) :
  8 <= size data ->
  size data <> 8 + DecodeFixed32 data ->
  CompressedBlockDecoder.Uncompress this data result m =
    Some ((Status_Corruption
             ("compressed size " ++ decimal (DecodeFixed32 data)
                ++ " does not match remaining length in buffer "
                ++ decimal (to_size_t (size data - 8)) ++ ", buffer")
             (ToDebugString data 50),
           result),
          mkMachine (heap m)
                    (trace m ++ [EvDecodeFixed32 0; EvDecodeFixed32 4])).
Proof.
  intros Hlong Hne.
  rewrite Uncompress_mismatch by assumption.
  rewrite mismatch_message.
  rewrite (to_uint32_small (DecodeFixed32 data)) by apply DecodeFixed32_range.
  rewrite (to_size_t_small (to_size_t (size data - 8)))
    by apply to_size_t_range.
  reflexivity.
Qed.

(** The spec's example: a header declaring 100 payload bytes in front of
    50. *)
Lemma Uncompress_length_mismatch_witness :
  let data :=
    InlineEncodeFixed32 100 ++ InlineEncodeFixed32 7
      ++ repeat Byte.x00 50 in
  8 <= size data /\ size data <> 8 + DecodeFixed32 data /\
  CompressedBlockDecoder.Uncompress
    (CompressedBlockDecoder.new store_codec 1000) data no_slice empty_machine =
  Some ((Status_Corruption
           "compressed size 100 does not match remaining length in buffer 50, buffer"
           (ToDebugString data 50),
         no_slice),
        mkMachine [] [EvDecodeFixed32 0; EvDecodeFixed32 4]).
Proof.
  intros data.
  assert (H1 : 8 <= size data) by (vm_compute; discriminate).
  assert (H2 : size data <> 8 + DecodeFixed32 data) by (vm_compute; discriminate).
  split; [exact H1|]. split; [exact H2|].
  exact (Uncompress_length_mismatch
           (CompressedBlockDecoder.new store_codec 1000) data no_slice
           empty_machine H1 H2).
Defined.

(** C4: with a header that passes the length check and declares 100
    uncompressed bytes against a limit of 50, [Uncompress] returns a
    Corruption status before anything is allocated or the codec is called,
    but the number its message prints after "uncompressed size" is the
    compressed size, 0, not the declared uncompressed size, 100. *)
Theorem Uncompress_oversize_message_prints_compressed_size
    (result : SliceRef) (m : Machine) :
  size bomb_header = 8 + DecodeFixed32 bomb_header /\
  DecodeFixed32 (skipn 4 bomb_header) = 100 /\
  CompressedBlockDecoder.Uncompress
    (CompressedBlockDecoder.new store_codec 50) bomb_header result m =
  Some ((Status_Corruption
           "uncompressed size 0 overflows the maximum length 50, buffer"
           (ToDebugString bomb_header 50),
         result),
        mkMachine (heap m)
                  (trace m ++ [EvDecodeFixed32 0; EvDecodeFixed32 4])).
Proof.
  split; [reflexivity|]. split; [reflexivity|].
  rewrite Uncompress_oversize; reflexivity.
Qed.

(** C5: an input of fewer than 8 bytes makes [Uncompress] return a
    Corruption status and nothing else happens: the machine is returned as
    it was, so no header field was decoded and the codec was not called.
    The message gives the actual length and the required 8; the second
    message part is the excerpt [ToDebugString(50)], here the whole input,
    and at most 50 bytes long. *)
Theorem Uncompress_short_input (this : CompressedBlockDecoder.t)
    (data : Slice) (result : SliceRef) (m : Machine) :
  size data < 8 ->
  CompressedBlockDecoder.Uncompress this data result m =
    Some ((Status_Corruption
             ("data size " ++ decimal (size data)
                ++ " is not enough to contains the header. required 8, buffer")
             (string_of_list_byte data),
           result),
          m)
  /\ ToDebugString data 50 = string_of_list_byte data
  /\ (String.length (ToDebugString data 50) <= 50)%nat.
Proof.
  intros Hshort. pose proof (size_nonneg data) as Hnn.
  assert (Hwhole : ToDebugString data 50 = string_of_list_byte data).
  { apply ToDebugString_whole. unfold size in Hshort. lia. }
  split; [|split; [exact Hwhole|apply ToDebugString_bounded]].
  rewrite Uncompress_short by exact Hshort.
  rewrite too_short_message, to_size_t_small, Hwhole by lia.
  reflexivity.
Qed.

Lemma Uncompress_short_input_witness :
  size [Byte.x01; Byte.x02; Byte.x03] < 8 /\
  CompressedBlockDecoder.Uncompress
    (CompressedBlockDecoder.new store_codec 1000)
    [Byte.x01; Byte.x02; Byte.x03] no_slice empty_machine =
  Some ((Status_Corruption
           "data size 3 is not enough to contains the header. required 8, buffer"
           (string_of_list_byte [Byte.x01; Byte.x02; Byte.x03]),
         no_slice),
        empty_machine).
Proof.
  split; [reflexivity|].
  apply (Uncompress_short_input
           (CompressedBlockDecoder.new store_codec 1000)
           [Byte.x01; Byte.x02; Byte.x03] no_slice empty_machine).
  reflexivity.
Defined.

(** C6, as stated, fails: with the estimate (1) within the limit (100), a
    codec whose [Compress] reports InvalidArgument makes [Compress] return
    that status. *)
Lemma Compress_InvalidArgument_from_codec :
  CompressedBlockBuilder.new refusing_codec 100 empty_machine
    = Some (fresh_builder refusing_codec 100, fresh_machine) /\
  (exists (this' : CompressedBlockBuilder.t) (m' : Machine),
     CompressedBlockBuilder.Compress (fresh_builder refusing_codec 100)
       [[Byte.x61]] no_slice fresh_machine
     = Some ((Status_InvalidArgument "unsupported input", this', no_slice),
             m')) /\
  ~ (to_size_t
       (CompressionCodec.MaxCompressedLength refusing_codec
          (CompressedBlockBuilder.total_size [[Byte.x61]]))
     > 100).
Proof.
  split; [reflexivity|]. split.
  - eexists _, _. vm_compute. reflexivity.
  - vm_compute. discriminate.
Qed.

(** C6, amended: when the codec's estimate for the combined input length
    exceeds the limit, [Compress] returns InvalidArgument with both numbers
    in the message, leaves the Builder and [*result] as they were, and has
    only asked for the estimate (the codec's [Compress] is not called, the
    heap is untouched).  When the estimate is within the limit, any error
    [Compress] returns is the status the codec's [Compress] returned,
    unchanged. *)
Theorem Compress_size_limit_check (this : CompressedBlockBuilder.t)
    (data_slices : list Slice) (result : SliceRef) (m : Machine) :
  let data_size := CompressedBlockBuilder.total_size data_slices in
  let codec := CompressedBlockBuilder.codec_ this in
  let limit := CompressedBlockBuilder.compressed_size_limit_ this in
  let max_compressed_size :=
    to_size_t (CompressionCodec.MaxCompressedLength codec data_size) in
  (max_compressed_size > limit ->
   CompressedBlockBuilder.Compress this data_slices result m =
     Some ((Status_InvalidArgument
              ("estimated max size " ++ decimal max_compressed_size
                 ++ " is greater than the expected "
                 ++ decimal (to_size_t limit)),
            this, result),
           mkMachine (heap m)
                     (trace m ++ [EvMaxCompressedLength data_size])))
  /\
  (max_compressed_size <= limit ->
   forall (st : Status) (this' : CompressedBlockBuilder.t)
          (result' : SliceRef) (m' : Machine),
     CompressedBlockBuilder.Compress this data_slices result m
       = Some ((st, this', result'), m') ->
     ok st = false ->
     fst (CompressionCodec.Compress codec data_slices) = st).
Proof.
  intros data_size codec limit max_compressed_size. split.
  - intros Hgt. rewrite Compress_rejects by exact Hgt.
    rewrite over_limit_message.
    fold data_size codec limit max_compressed_size.
    rewrite (to_size_t_small max_compressed_size) by apply to_size_t_range.
    reflexivity.
  - intros Hle st this' result' m' Hrun Hst.
    apply Compress_returns in Hrun as [(Hgt & _)|(_ & Hrun)].
    + fold data_size codec limit max_compressed_size in Hgt. lia.
    + destruct Hrun as (buffer & m1 & s & written & head & tail
                        & _ & Hcodec & _ & _ & -> & _).
      unfold codec. rewrite Hcodec. cbn [fst].
      destruct (ok s) eqn:Hs; [discriminate|reflexivity].
Qed.

Lemma Compress_size_limit_check_witness :
  CompressedBlockBuilder.Compress (fresh_builder store_codec 5)
    [list_byte_of_string "aaaabbbccc"] no_slice fresh_machine =
  Some ((Status_InvalidArgument
           "estimated max size 10 is greater than the expected 5",
         fresh_builder store_codec 5, no_slice),
        mkMachine [Some []] [EvNew 0 0; EvMaxCompressedLength 10])
  /\
  fst (CompressionCodec.Compress refusing_codec [[Byte.x61]])
    = Status_InvalidArgument "unsupported input".
Proof.
  split.
  - refine (proj1 (Compress_size_limit_check (fresh_builder store_codec 5)
                     [list_byte_of_string "aaaabbbccc"] no_slice
                     fresh_machine) _).
    reflexivity.
  - refine (proj2 (Compress_size_limit_check
                     (fresh_builder refusing_codec 100) [[Byte.x61]] no_slice
                     fresh_machine) _
              (Status_InvalidArgument "unsupported input")
              (CompressedBlockBuilder.mk refusing_codec 100
                 (mkFaststring 1 9 9))
              no_slice
              (mkMachine [None; Some (repeat Byte.x00 9)]
                 [EvNew 0 0; EvMaxCompressedLength 1; EvNew 1 9; EvDelete 0;
                  EvCodecCompress [[Byte.x61]] (mkPtr 1 8) 1])
              _ _).
    + vm_compute. discriminate.
    + reflexivity.
    + reflexivity.
Defined.

(** C7: whenever [Compress] or [Uncompress] returns a status that is not
    OK, whichever check or codec call it came from, [*result] is what the
    caller passed in. *)
Theorem errors_leave_result_unmodified :
  (forall (this this' : CompressedBlockBuilder.t) (data_slices : list Slice)
          (result result' : SliceRef) (m m' : Machine) (st : Status),
     CompressedBlockBuilder.Compress this data_slices result m
       = Some ((st, this', result'), m') ->
     ok st = false -> result' = result)
  /\
  (forall (this : CompressedBlockDecoder.t) (data : Slice)
          (result result' : SliceRef) (m m' : Machine) (st : Status),
     CompressedBlockDecoder.Uncompress this data result m
       = Some ((st, result'), m') ->
     ok st = false -> result' = result).
Proof.
  split.
  - intros this this' data_slices result result' m m' st Hrun Hst.
    apply Compress_returns in Hrun as [(_ & _ & _ & Hres & _)|(_ & Hrun)];
      [exact Hres|].
    destruct Hrun as (buffer & m1 & s & written & head & tail
                      & _ & _ & _ & _ & -> & -> & _).
    destruct (ok s); [discriminate|reflexivity].
  - intros this data result result' m m' st Hrun Hst.
    apply Uncompress_returns in Hrun as [(_ & Hres)|(-> & _)];
      [exact Hres|discriminate].
Qed.

Lemma errors_leave_result_unmodified_witness :
  let kept := mkSlice (mkPtr 7 3) 21 in
  (CompressedBlockBuilder.Compress (fresh_builder refusing_codec 100)
     [[Byte.x61]] kept fresh_machine
   = Some ((Status_InvalidArgument "unsupported input",
            CompressedBlockBuilder.mk refusing_codec 100 (mkFaststring 1 9 9),
            kept),
           mkMachine [None; Some (repeat Byte.x00 9)]
             [EvNew 0 0; EvMaxCompressedLength 1; EvNew 1 9; EvDelete 0;
              EvCodecCompress [[Byte.x61]] (mkPtr 1 8) 1]))
  /\
  (CompressedBlockDecoder.Uncompress
     (CompressedBlockDecoder.new store_codec 50) bomb_header kept
     empty_machine
   = Some ((Status_Corruption
              "uncompressed size 0 overflows the maximum length 50, buffer"
              (ToDebugString bomb_header 50),
            kept),
           mkMachine [] [EvDecodeFixed32 0; EvDecodeFixed32 4])).
Proof.
  intros kept.
  assert (H1 : CompressedBlockBuilder.Compress
                 (fresh_builder refusing_codec 100) [[Byte.x61]] kept
                 fresh_machine
               = Some ((Status_InvalidArgument "unsupported input",
                        CompressedBlockBuilder.mk refusing_codec 100
                          (mkFaststring 1 9 9),
                        mkSlice (mkPtr 7 3) 21),
                       mkMachine [None; Some (repeat Byte.x00 9)]
                         [EvNew 0 0; EvMaxCompressedLength 1; EvNew 1 9;
                          EvDelete 0;
                          EvCodecCompress [[Byte.x61]] (mkPtr 1 8) 1]))
    by reflexivity.
  assert (H2 : CompressedBlockDecoder.Uncompress
                 (CompressedBlockDecoder.new store_codec 50) bomb_header kept
                 empty_machine
               = Some ((Status_Corruption
                          "uncompressed size 0 overflows the maximum length 50, buffer"
                          (ToDebugString bomb_header 50),
                        mkSlice (mkPtr 7 3) 21),
                       mkMachine [] [EvDecodeFixed32 0; EvDecodeFixed32 4]))
    by reflexivity.
  pose proof (proj1 errors_leave_result_unmodified _ _ _ _ _ _ _ _ H1 eq_refl)
    as K1.
  pose proof (proj2 errors_leave_result_unmodified _ _ _ _ _ _ _ H2 eq_refl)
    as K2.
  split; [rewrite <- K1 at 2; exact H1|rewrite <- K2 at 2; exact H2].
Defined.

(** C8: when [Uncompress] returns OK, [*result] is a slice of exactly the
    uncompressed size declared in bytes 4-7 of the header, starting at the
    first byte of an allocation that did not exist before the call, was made
    during it with exactly that many bytes, and has not been freed when the
    call returns: it is the caller's. *)
Theorem Uncompress_output_buffer (this : CompressedBlockDecoder.t)
    (input : Slice) (result result' : SliceRef) (m m' : Machine)
    (st : Status) :
  CompressedBlockDecoder.Uncompress this input result m
    = Some ((st, result'), m') ->
  ok st = true ->
  let uncompressed_size := DecodeFixed32 (skipn 4 input) in
  let buffer := block (data result') in
  result' = mkSlice (mkPtr buffer 0) uncompressed_size /\
  nth_error (heap m) buffer = None /\
  (exists contents : list byte,
     live (heap m') buffer = Some contents /\
     size contents = uncompressed_size) /\
  (exists events : list Event,
     trace m' = trace m ++ events /\
     In (EvNew buffer uncompressed_size) events /\
     ~ In (EvDelete buffer) events).
Proof.
  intros Hrun Hst uncompressed_size buffer.
  apply Uncompress_returns in Hrun as [(Hno & _)|Hrun]; [congruence|].
  destruct Hrun as (_ & _ & _ & _ & s & written & _ & _ & Hbound & Hres & Hm).
  fold uncompressed_size in Hbound, Hres, Hm.
  pose proof (DecodeFixed32_range (skipn 4 input)) as Hus.
  fold uncompressed_size in Hus.
  assert (Hbuf : buffer = length (heap m)) by (unfold buffer; rewrite Hres; reflexivity).
  rewrite Hbuf. split; [exact Hres|]. split.
  { apply nth_error_None. lia. }
  split.
  - eexists. split.
    + rewrite Hm. cbn [heap]. apply live_app_new.
    + unfold size. rewrite splice_length; rewrite repeat_length.
      * lia.
      * unfold size in Hbound. lia.
  - eexists. split; [rewrite Hm; cbn [trace]; reflexivity|]. split.
    + cbn. auto.
    + cbn. intros [H|[H|[H|[H|[]]]]]; discriminate.
Qed.

Lemma Uncompress_output_buffer_witness :
  let framed :=
    InlineEncodeFixed32 3 ++ InlineEncodeFixed32 3
      ++ [Byte.x61; Byte.x62; Byte.x63] in
  CompressedBlockDecoder.Uncompress
    (CompressedBlockDecoder.new store_codec 1000) framed no_slice
    fresh_machine
  = Some ((Status_OK, mkSlice (mkPtr 1 0) 3),
          mkMachine [Some []; Some [Byte.x61; Byte.x62; Byte.x63]]
            [EvNew 0 0; EvDecodeFixed32 0; EvDecodeFixed32 4; EvNew 1 3;
             EvCodecUncompress [Byte.x61; Byte.x62; Byte.x63] (mkPtr 1 0) 3])
  /\ nth_error (heap fresh_machine) 1 = None.
Proof.
  intros framed.
  assert (Hrun : CompressedBlockDecoder.Uncompress
                   (CompressedBlockDecoder.new store_codec 1000) framed
                   no_slice fresh_machine
                 = Some ((Status_OK, mkSlice (mkPtr 1 0) 3),
                         mkMachine
                           [Some []; Some [Byte.x61; Byte.x62; Byte.x63]]
                           [EvNew 0 0; EvDecodeFixed32 0; EvDecodeFixed32 4;
                            EvNew 1 3;
                            EvCodecUncompress [Byte.x61; Byte.x62; Byte.x63]
                              (mkPtr 1 0) 3]))
    by reflexivity.
  split; [exact Hrun|].
  exact (proj1 (proj2 (Uncompress_output_buffer _ _ _ _ _ _ _ Hrun eq_refl))).
Defined.

(** C9, as stated, fails: [resize] sets the buffer's length to what the call
    needs.  After a 10-byte block the buffer is 18 bytes long, after an
    empty block on the same Builder it is 8 bytes long. *)
Lemma scratch_buffer_length_shrinks :
  exists (history : list (Status * CompressedBlockBuilder.t * SliceRef))
         (m' : Machine),
    compress_all (fresh_builder store_codec 1000)
      [[list_byte_of_string "aaaabbbccc"]; [[]]] no_slice fresh_machine
      = Some (history, m') /\
    map (fun x => ok (fst (fst x))) history = [true; true] /\
    map (fun x => len_ (buffer_after x)) history = [18; 8].
Proof.
  eexists _, _. split; [vm_compute; reflexivity|].
  split; reflexivity.
Qed.

(** C9, amended: over any sequence of [Compress] calls on one Builder, the
    capacity of the scratch buffer (the size of its storage) after each
    call is at least its capacity before the first call and after every
    earlier call, while each call that passes the pre-check resets the
    buffer's length to 8 plus that call's estimate (added in [size_t]), so
    the length may decrease.  The view each successful call returns
    starts at the first byte of the Builder's buffer and, the buffer being
    well formed before the first call, lies within its storage. *)
Theorem scratch_buffer_capacity_never_shrinks
    (calls : list (list Slice)) (this : CompressedBlockBuilder.t)
    (result : SliceRef) (m m' : Machine)
    (history : list (Status * CompressedBlockBuilder.t * SliceRef)) :
  compress_all this calls result m = Some (history, m') ->
  let codec := CompressedBlockBuilder.codec_ this in
  let limit := CompressedBlockBuilder.compressed_size_limit_ this in
  StronglySorted Z.le
    (capacity_ (CompressedBlockBuilder.buffer_ this)
       :: map (fun x => capacity_ (buffer_after x)) history)
  /\
  Forall2 (fun data_slices x =>
             let estimate :=
               to_size_t (CompressionCodec.MaxCompressedLength codec
                            (CompressedBlockBuilder.total_size data_slices)) in
             estimate <= limit ->
             len_ (buffer_after x) = to_size_t (8 + estimate))
          calls history
  /\
  Forall (fun x =>
            ok (fst (fst x)) = true ->
            data (snd x) = mkPtr (data_ (buffer_after x)) 0 /\
            8 <= slice_size (snd x))
         history
  /\
  (faststring_ok (heap m) (CompressedBlockBuilder.buffer_ this) ->
   Forall (fun x =>
             ok (fst (fst x)) = true ->
             slice_size (snd x) <= capacity_ (buffer_after x))
          history).
Proof.
  revert this result m m' history.
  induction calls as [|data_slices calls IH];
    intros this result m m' history Hrun codec limit.
  - inversion Hrun; subst. cbn [map]. repeat split; repeat constructor.
  - cbn [compress_all] in Hrun.
    apply bind_inv in Hrun as ([[st this'] result'] & m1 & Hcall & Hrun).
    apply bind_inv in Hrun as (later & m2 & Hrest & Hret).
    inversion Hret; subst; clear Hret.
    pose proof (Compress_step _ _ _ _ _ _ _ _ Hcall)
      as (Hcodec & Hlimit & Hcap & Hlen & Hview & Hwithin).
    pose proof (fun Hok => Compress_keeps_buffer_ok _ _ _ _ _ _ _ _ Hok Hcall)
      as Hkeeps.
    apply IH in Hrest as (Hsorted & Hlens & Hviews & Hbounds).
    rewrite Hcodec, Hlimit in Hlens. fold codec limit in Hlens, Hlen.
    cbn [map buffer_after fst snd] in *. repeat split.
    + constructor; [exact Hsorted|].
      apply StronglySorted_inv in Hsorted as [_ Hall].
      constructor; [exact Hcap|].
      eapply Forall_impl; [|exact Hall]. cbv beta. intros c Hc. lia.
    + constructor; [exact Hlen|exact Hlens].
    + constructor; [exact Hview|exact Hviews].
    + intros Hok. constructor; [exact (Hwithin Hok)|].
      apply Hbounds, Hkeeps, Hok.
Qed.

Lemma scratch_buffer_capacity_never_shrinks_witness :
  let calls := [[list_byte_of_string "aaaabbbccc"]; [[]]] in
  let history :=
    [(Status_OK,
      CompressedBlockBuilder.mk store_codec 1000 (mkFaststring 1 18 18),
      mkSlice (mkPtr 1 0) 18);
     (Status_OK,
      CompressedBlockBuilder.mk store_codec 1000 (mkFaststring 1 8 18),
      mkSlice (mkPtr 1 0) 8)] in
  let after :=
    mkMachine
      [None;
       Some (InlineEncodeFixed32 0 ++ InlineEncodeFixed32 0
               ++ list_byte_of_string "aaaabbbccc")]
      [EvNew 0 0; EvMaxCompressedLength 10; EvNew 1 18; EvDelete 0;
       EvCodecCompress [list_byte_of_string "aaaabbbccc"] (mkPtr 1 8) 10;
       EvMaxCompressedLength 0; EvCodecCompress [[]] (mkPtr 1 8) 0] in
  compress_all (fresh_builder store_codec 1000) calls no_slice fresh_machine
    = Some (history, after)
  /\ StronglySorted Z.le [0; 18; 18]
  /\ map (fun x => len_ (buffer_after x)) history = [18; 8]
  /\ Forall (fun x =>
               ok (fst (fst x)) = true ->
               slice_size (snd x) <= capacity_ (buffer_after x))
            history.
Proof.
  intros calls history after.
  assert (Hrun : compress_all (fresh_builder store_codec 1000) calls no_slice
                   fresh_machine
                 = Some (history, after))
    by reflexivity.
  assert (Hok : faststring_ok (heap fresh_machine)
                  (CompressedBlockBuilder.buffer_
                     (fresh_builder store_codec 1000))).
  { exists []. cbn. repeat split; lia. }
  destruct (scratch_buffer_capacity_never_shrinks _ _ _ _ _ _ Hrun)
    as (Hsorted & _ & _ & Hwithin).
  split; [exact Hrun|]. split; [exact Hsorted|].
  split; [reflexivity|]. exact (Hwithin Hok).
Defined.




(** * Further properties *)

(** An instance: the view of an earlier call reads the later call's bytes.
    The first frame held the 10-byte block, and after a second call for a
    2-byte block the same view starts with the second frame. *)
Example earlier_view_is_overwritten :
  let first := mkSlice (mkPtr 1 0) 18 in
  exists (m1 m2 : Machine) (b1 b2 : CompressedBlockBuilder.t),
    CompressedBlockBuilder.Compress (fresh_builder store_codec 1000)
      [list_byte_of_string "aaaabbbccc"] no_slice fresh_machine
      = Some ((Status_OK, b1, first), m1) /\
    CompressedBlockBuilder.Compress b1 [list_byte_of_string "xy"] first m1
      = Some ((Status_OK, b2, mkSlice (mkPtr 1 0) 10), m2) /\
    read_slice (heap m1) first =
      Some (InlineEncodeFixed32 10 ++ InlineEncodeFixed32 10
              ++ list_byte_of_string "aaaabbbccc") /\
    read_slice (heap m2) first =
      Some (InlineEncodeFixed32 2 ++ InlineEncodeFixed32 2
              ++ list_byte_of_string "xyaabbbccc").
Proof.
  intros first. eexists _, _, _, _.
  split; [vm_compute; reflexivity|].
  split; [vm_compute; reflexivity|].
  split; reflexivity.
Qed.

(** X2: when the header passes every check and the codec's [Uncompress]
    fails (having written no more than the output buffer holds),
    [Uncompress] returns the codec's status unchanged, leaves [*result] as
    it was, and has freed the output buffer it allocated. *)
Theorem Uncompress_codec_error (this : CompressedBlockDecoder.t)
    (input : Slice) (result : SliceRef) (m : Machine) (s : Status)
    (written : list byte) :
  let compressed_size := DecodeFixed32 input in
  let uncompressed_size := DecodeFixed32 (skipn 4 input) in
  8 <= size input ->
  size input = 8 + compressed_size ->
  uncompressed_size
    <= CompressedBlockDecoder.uncompressed_size_limit_ this ->
  CompressionCodec.Uncompress (CompressedBlockDecoder.codec_ this)
    (firstn (Z.to_nat compressed_size) (skipn 8 input)) uncompressed_size
    = (s, written) ->
  ok s = false ->
  size written <= uncompressed_size ->
  exists m' : Machine,
    CompressedBlockDecoder.Uncompress this input result m
      = Some ((s, result), m') /\
    heap m' = heap m ++ [None].
Proof.
  intros compressed_size uncompressed_size Hlong Heq Hle Hcodec Hs Hbound.
  pose proof (Uncompress_decodes this input result m s written
                Hlong Heq Hle Hcodec Hbound) as Hrun.
  cbv zeta in Hrun. rewrite Hs in Hrun.
  eexists. split; [exact Hrun|reflexivity].
Qed.

Lemma Uncompress_codec_error_witness :
  let input :=
    InlineEncodeFixed32 3 ++ InlineEncodeFixed32 5
      ++ [Byte.x61; Byte.x62; Byte.x63] in
  exists m' : Machine,
    CompressedBlockDecoder.Uncompress
      (CompressedBlockDecoder.new store_codec 1000) input no_slice
      fresh_machine
    = Some ((Status_Corruption "unable to uncompress the buffer" "",
             no_slice),
            m') /\
    heap m' = heap fresh_machine ++ [None].
Proof.
  intros input.
  apply (Uncompress_codec_error
           (CompressedBlockDecoder.new store_codec 1000) input no_slice
           fresh_machine
           (Status_Corruption "unable to uncompress the buffer" "") []);
    try reflexivity; vm_compute; discriminate.
Defined.

(** X3: the length [Compress] computes for the header depends only on the
    bytes of the input ranges taken together: it is the same for a buffer
    passed whole and for the same bytes passed as several ranges. *)
Theorem total_size_of_ranges (data_slices : list Slice) :
  CompressedBlockBuilder.total_size data_slices
    = CompressedBlockBuilder.total_size [concat data_slices].
Proof.
  rewrite (total_size_concat data_slices),
          (total_size_concat [concat data_slices]).
  cbn [concat]. rewrite app_nil_r. reflexivity.
Qed.

(** ** Every way [Uncompress] can return, with the machine it leaves *)

Lemma Uncompress_cases (this : CompressedBlockDecoder.t) (input : Slice)
    (result result' : SliceRef) (m m' : Machine) (st : Status) :
  let compressed_size := header_compressed_size input in
  let uncompressed_size := header_uncompressed_size input in
  let buffer := length (heap m) in
  let decoded :=
    trace m ++ [EvDecodeFixed32 0; EvDecodeFixed32 4] in
  let codec_called :=
    decoded ++ [EvNew buffer uncompressed_size;
                EvCodecUncompress (payload_of input) (mkPtr buffer 0)
                  uncompressed_size] in
  CompressedBlockDecoder.Uncompress this input result m
    = Some ((st, result'), m') ->
  (* the input is shorter than a header *)
  (size input < 8 /\ code st = kCorruption /\ result' = result /\ m' = m)
  \/
  (* the header does not match the input's length *)
  (8 <= size input /\ size input <> 8 + compressed_size /\
   code st = kCorruption /\ result' = result /\
   m' = mkMachine (heap m) decoded)
  \/
  (* the declared uncompressed size is over the limit *)
  (8 <= size input /\ size input = 8 + compressed_size /\
   uncompressed_size > CompressedBlockDecoder.uncompressed_size_limit_ this /\
   code st = kCorruption /\ result' = result /\
   m' = mkMachine (heap m) decoded)
  \/
  (* the codec ran *)
  (8 <= size input /\ size input = 8 + compressed_size /\
   uncompressed_size <= CompressedBlockDecoder.uncompressed_size_limit_ this /\
   exists (s : Status) (written : list byte),
     CompressionCodec.Uncompress (CompressedBlockDecoder.codec_ this)
       (payload_of input) uncompressed_size = (s, written) /\
     size written <= uncompressed_size /\
     ((ok s = false /\ st = s /\ result' = result /\
       m' = mkMachine (heap m ++ [None]) (codec_called ++ [EvDelete buffer]))
      \/
      (ok s = true /\ st = Status_OK /\
       result' = mkSlice (mkPtr buffer 0) uncompressed_size /\
       m' = mkMachine
              (heap m
                 ++ [Some (splice
                             (repeat Byte.x00 (Z.to_nat uncompressed_size))
                             0 written)])
              codec_called))).
Proof.
  intros compressed_size uncompressed_size buffer decoded codec_called H.
  unfold header_compressed_size, header_uncompressed_size, payload_of in *.
  destruct (Z.lt_ge_cases (size input) 8) as [Hshort|Hlong].
  { rewrite Uncompress_short in H by exact Hshort.
    inversion H; subst. left. repeat split; auto. }
  right.
  destruct (Z.eq_dec (size input) (8 + DecodeFixed32 input)) as [Heq|Hne].
  2:{ rewrite Uncompress_mismatch in H by assumption.
      inversion H; subst. left. repeat split; auto. }
  right.
  destruct (Z_gt_le_dec (DecodeFixed32 (skipn 4 input))
              (CompressedBlockDecoder.uncompressed_size_limit_ this))
    as [Hgt|Hle].
  { rewrite Uncompress_oversize in H by assumption.
    inversion H; subst. left. repeat split; auto. }
  right. split; [exact Hlong|]. split; [exact Heq|]. split; [exact Hle|].
  pose proof H as H0.
  rewrite Uncompress_header in H by exact Hlong.
  replace (size input =? 8 + DecodeFixed32 input) with true in H
    by (symmetry; apply Z.eqb_eq; exact Heq).
  replace (DecodeFixed32 (skipn 4 input)
             >? CompressedBlockDecoder.uncompressed_size_limit_ this)
    with false in H
    by (symmetry; destruct (Z.gtb_spec (DecodeFixed32 (skipn 4 input))
                              (CompressedBlockDecoder.uncompressed_size_limit_
                                 this)); [lia|reflexivity]).
  cbn [negb] in H.
  apply bind_inv in H as (b & m1 & Hnew & H).
  inversion Hnew; subst b m1; clear Hnew.
  apply bind_inv in H as (s & m2 & Hcall & H).
  unfold call_Uncompress in Hcall.
  apply bind_inv in Hcall as (u & m3 & Hemit & Hcall).
  inversion Hemit; subst u m3; clear Hemit.
  destruct (CompressionCodec.Uncompress (CompressedBlockDecoder.codec_ this)
              (firstn (Z.to_nat (DecodeFixed32 input)) (skipn 8 input))
              (DecodeFixed32 (skipn 4 input)))
    as [s' written] eqn:Hcodec.
  apply bind_inv in Hcall as (u & m4 & Hstore & Hret).
  inversion Hret; subst s' m4; clear Hret.
  apply store_within_inv in Hstore as (bytes & _ & _ & Hbound & _ & _).
  pose proof (Uncompress_decodes this input result m s written
                Hlong Heq Hle Hcodec Hbound) as Hrun.
  cbv zeta in Hrun. rewrite Hrun in H0. clear Hrun H.
  exists s, written. split; [exact Hcodec|]. split; [exact Hbound|].
  destruct (ok s) eqn:Hs; inversion H0; subst.
  - right. unfold codec_called, decoded, buffer.
    cbn [trace]. repeat split; reflexivity.
  - left. unfold codec_called, decoded, buffer.
    cbn [trace]. repeat split; reflexivity.
Qed.

Lemma live_app_freed_inv (h : Heap) (b : nat) (bytes : list byte) :
  live (h ++ [None]) b = Some bytes -> live h b = Some bytes.
Proof.
  unfold live. intros H.
  destruct (Nat.lt_ge_cases b (length h)) as [Hlt|Hge].
  - rewrite nth_error_app1 in H by exact Hlt. exact H.
  - rewrite nth_error_app2 in H by exact Hge.
    destruct (b - length h)%nat as [|k]; cbn in H; [discriminate|].
    destruct k; discriminate.
Qed.

(** The header fields are read from the first bytes only. *)
Lemma framed_block_size (compressed_size data_size : Z) (payload : Slice) :
  size (framed_block compressed_size data_size payload) = 8 + size payload.
Proof. apply framed_size. Qed.



(** X5: [Uncompress] allocates at most once, and only after the header has
    passed both checks: every allocation a returning call makes has exactly
    the uncompressed size the header declares, which is then within the
    Decoder's limit (and below 2^32). *)
Theorem Uncompress_allocation_bound (this : CompressedBlockDecoder.t)
    (input : Slice) (result result' : SliceRef) (m m' : Machine)
    (st : Status) :
  CompressedBlockDecoder.Uncompress this input result m
    = Some ((st, result'), m') ->
  exists events : list Event,
    trace m' = trace m ++ events /\
    forall (b : nat) (n : Z),
      In (EvNew b n) events ->
      n = header_uncompressed_size input /\
      n <= CompressedBlockDecoder.uncompressed_size_limit_ this /\
      n < 2 ^ 32 /\
      size input = 8 + header_compressed_size input.
Proof.
  intros Hrun.
  pose proof (DecodeFixed32_range (skipn 4 input)) as Hus.
  apply Uncompress_cases in Hrun
    as [(_ & _ & _ & ->)
       |[(_ & _ & _ & _ & ->)
        |[(_ & _ & _ & _ & _ & ->)
         |(_ & Heq & Hle & s & written & _ & _ & Hrun)]]].
  - exists []. rewrite app_nil_r. split; [reflexivity|]. intros b n [].
  - eexists. split; [reflexivity|]. cbn.
    intros b n [H|[H|[]]]; discriminate.
  - eexists. split; [reflexivity|]. cbn.
    intros b n [H|[H|[]]]; discriminate.
  - destruct Hrun as [(_ & _ & _ & ->)|(_ & _ & _ & ->)]; cbn [trace];
      rewrite <- ?app_assoc; (eexists; split; [reflexivity|]); cbn;
      intros b n Hin;
      repeat (destruct Hin as [Hin|Hin]; try discriminate);
      try contradiction;
      inversion Hin; subst; unfold header_uncompressed_size in *;
      repeat split; auto; lia.
Qed.

Lemma Uncompress_allocation_bound_witness :
  let framed :=
    framed_block 3 3 [Byte.x61; Byte.x62; Byte.x63] in
  exists events : list Event,
    [EvNew 0 0; EvDecodeFixed32 0; EvDecodeFixed32 4; EvNew 1 3;
     EvCodecUncompress [Byte.x61; Byte.x62; Byte.x63] (mkPtr 1 0) 3]
      = trace fresh_machine ++ events /\
    forall (b : nat) (n : Z),
      In (EvNew b n) events ->
      n = header_uncompressed_size framed /\
      n <= 1000 /\ n < 2 ^ 32 /\
      size framed = 8 + header_compressed_size framed.
Proof.
  intros framed.
  exact (Uncompress_allocation_bound
           (CompressedBlockDecoder.new store_codec 1000) framed no_slice
           (mkSlice (mkPtr 1 0) 3) fresh_machine
           (mkMachine [Some []; Some [Byte.x61; Byte.x62; Byte.x63]]
              [EvNew 0 0; EvDecodeFixed32 0; EvDecodeFixed32 4; EvNew 1 3;
               EvCodecUncompress [Byte.x61; Byte.x62; Byte.x63]
                 (mkPtr 1 0) 3])
           Status_OK eq_refl).
Defined.

(** X6: [Uncompress] leaves every allocation that was live before the call
    live and unchanged; and when it returns an error, whichever one, it
    leaves no allocation live that was not live before: the output buffer
    it may have allocated has been freed. *)
Theorem Uncompress_frame (this : CompressedBlockDecoder.t)
    (input : Slice) (result result' : SliceRef) (m m' : Machine)
    (st : Status) :
  CompressedBlockDecoder.Uncompress this input result m
    = Some ((st, result'), m') ->
  (forall (b : nat) (bytes : list byte),
     live (heap m) b = Some bytes -> live (heap m') b = Some bytes)
  /\
  (ok st = false ->
   forall (b : nat) (bytes : list byte),
     live (heap m') b = Some bytes -> live (heap m) b = Some bytes).
Proof.
  intros Hrun.
  apply Uncompress_cases in Hrun
    as [(_ & _ & _ & ->)
       |[(_ & _ & _ & _ & ->)
        |[(_ & _ & _ & _ & _ & ->)
         |(_ & _ & _ & s & written & _ & _ & Hrun)]]];
    cbn [heap]; try (split; intros; assumption).
  destruct Hrun as [(_ & -> & _ & ->)|(_ & -> & _ & ->)]; cbn [heap].
  - split.
    + intros b bytes Hl. apply live_app_old. exact Hl.
    + intros _ b bytes Hl. apply live_app_freed_inv in Hl. exact Hl.
  - split.
    + intros b bytes Hl. apply live_app_old. exact Hl.
    + intros Hno. discriminate.
Qed.

Lemma Uncompress_frame_witness :
  let input :=
    framed_block 3 5 [Byte.x61; Byte.x62; Byte.x63] in
  let after :=
    mkMachine [Some []; None]
      [EvNew 0 0; EvDecodeFixed32 0; EvDecodeFixed32 4; EvNew 1 5;
       EvCodecUncompress [Byte.x61; Byte.x62; Byte.x63] (mkPtr 1 0) 5;
       EvDelete 1] in
  CompressedBlockDecoder.Uncompress
    (CompressedBlockDecoder.new store_codec 1000) input no_slice
    fresh_machine
  = Some ((Status_Corruption "unable to uncompress the buffer" "", no_slice),
          after)
  /\
  forall (b : nat) (bytes : list byte),
    live (heap after) b = Some bytes -> live (heap fresh_machine) b = Some bytes.
Proof.
  intros input after.
  assert (Hrun : CompressedBlockDecoder.Uncompress
                   (CompressedBlockDecoder.new store_codec 1000) input
                   no_slice fresh_machine
                 = Some ((Status_Corruption "unable to uncompress the buffer"
                            "", no_slice), after))
    by reflexivity.
  split; [exact Hrun|].
  exact (proj2 (Uncompress_frame _ _ _ _ _ _ _ Hrun) eq_refl).
Defined.

(** X7: a returning [Uncompress] call returns OK exactly when the input is
    at least 8 bytes long, its length is 8 plus the compressed size in the
    header, the uncompressed size in the header is within the limit and
    the codec's [Uncompress] returned OK; and an error it returns is either
    a Corruption of its own or the codec's status. *)
Theorem Uncompress_status (this : CompressedBlockDecoder.t)
    (input : Slice) (result result' : SliceRef) (m m' : Machine)
    (st : Status) :
  CompressedBlockDecoder.Uncompress this input result m
    = Some ((st, result'), m') ->
  let codec_status :=
    fst (CompressionCodec.Uncompress (CompressedBlockDecoder.codec_ this)
           (payload_of input) (header_uncompressed_size input)) in
  (ok st = true <->
   8 <= size input /\
   size input = 8 + header_compressed_size input /\
   header_uncompressed_size input
     <= CompressedBlockDecoder.uncompressed_size_limit_ this /\
   ok codec_status = true)
  /\
  (ok st = false -> code st = kCorruption \/ st = codec_status).
Proof.
  intros Hrun codec_status. unfold codec_status.
  apply Uncompress_cases in Hrun
    as [(Hshort & Hc & _)
       |[(_ & Hne & Hc & _)
        |[(_ & _ & Hgt & Hc & _)
         |(Hlong & Heq & Hle & s & written & Hcodec & _ & Hrun)]]].
  - split; [|auto]. unfold ok. rewrite Hc. split; [discriminate|].
    intros (H & _). lia.
  - split; [|auto]. unfold ok. rewrite Hc. split; [discriminate|].
    intros (_ & H & _). contradiction.
  - split; [|auto]. unfold ok. rewrite Hc. split; [discriminate|].
    intros (_ & _ & H & _). lia.
  - rewrite Hcodec. cbn [fst].
    destruct Hrun as [(Hs & -> & _)|(Hs & -> & _)].
    + split; [|auto]. rewrite Hs. split; [discriminate|].
      intros (_ & _ & _ & H). discriminate.
    + split; [|discriminate]. split; [|reflexivity].
      intros _. repeat split; assumption.
Qed.

Lemma Uncompress_status_witness :
  let framed :=
    framed_block 3 3 [Byte.x61; Byte.x62; Byte.x63] in
  ok Status_OK = true <->
  8 <= size framed /\
  size framed = 8 + header_compressed_size framed /\
  header_uncompressed_size framed <= 1000 /\
  ok (fst (CompressionCodec.Uncompress store_codec (payload_of framed)
             (header_uncompressed_size framed))) = true.
Proof.
  intros framed.
  exact (proj1
           (Uncompress_status
              (CompressedBlockDecoder.new store_codec 1000) framed no_slice
              (mkSlice (mkPtr 1 0) 3) fresh_machine
              (mkMachine [Some []; Some [Byte.x61; Byte.x62; Byte.x63]]
                 [EvNew 0 0; EvDecodeFixed32 0; EvDecodeFixed32 4; EvNew 1 3;
                  EvCodecUncompress [Byte.x61; Byte.x62; Byte.x63]
                    (mkPtr 1 0) 3])
              Status_OK eq_refl)).
Defined.

(** X8: a framed block (header holding the payload's length, below 2^32)
    that has lost bytes at its end, or gained some, is rejected: every
    proper prefix and every proper extension of it makes [Uncompress]
    return Corruption, with [*result] left as it was and without a codec
    call or an allocation. *)
Theorem Uncompress_rejects_truncated_or_extended
    (this : CompressedBlockDecoder.t) (payload : Slice) (data_size : Z)
    (input : Slice) (result : SliceRef) (m : Machine) :
  let framed := framed_block (size payload) data_size payload in
  size payload < 2 ^ 32 ->
  (exists k : nat, (k < length framed)%nat /\ input = firstn k framed)
  \/ (exists extra : list byte, extra <> [] /\ input = framed ++ extra) ->
  exists (st : Status) (m' : Machine),
    CompressedBlockDecoder.Uncompress this input result m
      = Some ((st, result), m') /\
    code st = kCorruption /\
    heap m' = heap m /\
    (forall e, In e (skipn (length (trace m)) (trace m')) ->
               exists off, e = EvDecodeFixed32 off).
Proof.
  intros framed Hpay Hshape.
  pose proof (size_nonneg payload) as Hnn.
  pose proof (framed_block_size (size payload) data_size payload) as Hfs.
  fold framed in Hfs.
  assert (Hcs : DecodeFixed32 framed = size payload).
  { unfold framed, framed_block.
    rewrite DecodeFixed32_InlineEncodeFixed32. apply to_uint32_small. lia. }
  assert (Hdecodes :
    forall tr, (forall e, In e (skipn (length tr)
                                  (tr ++ [EvDecodeFixed32 0; EvDecodeFixed32 4]))
                          -> exists off, e = EvDecodeFixed32 off)).
  { intros tr e. rewrite skipn_app, skipn_all, Nat.sub_diag. cbn.
    intros [<-|[<-|[]]]; eexists; reflexivity. }
  destruct (Z.lt_ge_cases (size input) 8) as [Hshort|Hlong].
  { rewrite Uncompress_short by exact Hshort.
    eexists _, _. split; [reflexivity|]. split; [reflexivity|].
    split; [reflexivity|]. rewrite skipn_all. intros e []. }
  assert (Hne : size input <> 8 + DecodeFixed32 input).
  { destruct Hshape as [(k & Hk & ->)|(extra & Hextra & ->)].
    - assert (Hsz : size (firstn k framed) = Z.of_nat k)
        by (unfold size; rewrite length_firstn; lia).
      rewrite Hsz in *.
      rewrite DecodeFixed32_firstn by lia. rewrite Hcs.
      unfold size in *. lia.
    - rewrite size_app, Hfs.
      assert (Hd : DecodeFixed32 (framed ++ extra) = size payload).
      { unfold framed, framed_block.
        rewrite <- !app_assoc, DecodeFixed32_InlineEncodeFixed32.
        apply to_uint32_small. lia. }
      rewrite Hd.
      destruct extra as [|x extra]; [contradiction|].
      unfold size. cbn [length]. lia. }
  rewrite Uncompress_mismatch by assumption.
  eexists _, _. split; [reflexivity|]. split; [reflexivity|].
  split; [reflexivity|]. cbn [trace]. apply Hdecodes.
Qed.

Lemma Uncompress_rejects_truncated_or_extended_witness :
  let framed :=
    framed_block 3 3 [Byte.x61; Byte.x62; Byte.x63] in
  exists (st : Status) (m' : Machine),
    CompressedBlockDecoder.Uncompress
      (CompressedBlockDecoder.new store_codec 1000) (firstn 10 framed)
      no_slice fresh_machine
    = Some ((st, no_slice), m') /\
    code st = kCorruption /\
    heap m' = heap fresh_machine /\
    (forall e, In e (skipn (length (trace fresh_machine)) (trace m')) ->
               exists off, e = EvDecodeFixed32 off).
Proof.
  intros framed.
  apply (Uncompress_rejects_truncated_or_extended
           (CompressedBlockDecoder.new store_codec 1000)
           [Byte.x61; Byte.x62; Byte.x63] 3 (firstn 10 framed) no_slice
           fresh_machine).
  - vm_compute. reflexivity.
  - left. exists 10%nat. split; [cbn; lia|reflexivity].
Defined.

(** ** What [Compress] does to the heap *)

Lemma load_inv (p : Ptr) (n : Z) (m m' : Machine) (bs : list byte) :
  load p n m = Some (bs, m') ->
  m' = m /\ exists bytes, live (heap m) (block p) = Some bytes.
Proof.
  unfold load. destruct (live (heap m) (block p)) as [bytes|]; [|discriminate].
  destruct ((0 <=? offset p) && (0 <=? n) && (offset p + n <=? size bytes));
    [|discriminate].
  intros H. inversion H; subst. split; [reflexivity|]. exists bytes.
  reflexivity.
Qed.

Lemma delete_array_inv (b : nat) (m m' : Machine) (u : unit) :
  delete_array b m = Some (u, m') ->
  (b < length (heap m))%nat /\
  m' = mkMachine (set_block (heap m) b None) (trace m ++ [EvDelete b]).
Proof.
  unfold delete_array. destruct (live (heap m) b) as [bytes|] eqn:Hl;
    [|discriminate].
  intros H. inversion H; subst. split; [|reflexivity].
  eapply live_lt. exact Hl.
Qed.

Lemma store_within_frame (p : Ptr) (room : Z) (bs : list byte)
    (m m' : Machine) (u : unit) :
  store_within p room bs m = Some (u, m') ->
  length (heap m') = length (heap m) /\
  forall b, b <> block p -> nth_error (heap m') b = nth_error (heap m) b.
Proof.
  intros H. apply store_within_inv in H as (bytes & _ & _ & _ & _ & ->).
  cbn [heap]. split; [apply set_block_length|].
  intros b Hb. apply nth_error_set_block_other. congruence.
Qed.

Lemma store_frame (p : Ptr) (bs : list byte) (m m' : Machine) (u : unit) :
  store p bs m = Some (u, m') ->
  length (heap m') = length (heap m) /\
  forall b, b <> block p -> nth_error (heap m') b = nth_error (heap m) b.
Proof.
  unfold store. destruct (offset p + size bs <? 2 ^ 64); [|discriminate].
  apply store_within_frame.
Qed.

(** [resize] either keeps the storage, and then touches nothing, or moves
    to a new allocation at the end of the heap and frees the old one; no
    other allocation changes. *)
Lemma faststring_resize_frame (s s' : faststring) (newsize : Z)
    (m m' : Machine) :
  faststring_resize s newsize m = Some (s', m') ->
  (forall b, b <> data_ s -> (b < length (heap m))%nat ->
             nth_error (heap m') b = nth_error (heap m) b)
  /\
  ((data_ s' = data_ s /\ heap m' = heap m)
   \/
   (data_ s' = length (heap m) /\ (data_ s < length (heap m))%nat /\
    live (heap m') (data_ s) = None)).
Proof.
  unfold faststring_resize.
  destruct (newsize >? capacity_ s).
  - intros H.
    apply bind_inv in H as (old & m1 & Hload & H).
    apply load_inv in Hload as [-> (bytes & Hlive)]. cbn [block] in Hlive.
    pose proof (live_lt _ _ _ Hlive) as Hlt.
    apply bind_inv in H as (b0 & m2 & Hnew & H).
    inversion Hnew; subst b0 m2; clear Hnew.
    apply bind_inv in H as (u1 & m3 & Hstore & H).
    apply store_inv in Hstore as (zeros & _ & _ & _ & _ & ->).
    apply bind_inv in H as (u2 & m4 & Hdel & H).
    apply delete_array_inv in Hdel as [_ ->].
    inversion H; subst s' m'; clear H.
    cbn [heap block data_]. split.
    + intros b Hb Hblt.
      rewrite nth_error_set_block_other by congruence.
      rewrite nth_error_set_block_other by lia.
      apply nth_error_app1. exact Hblt.
    + right. split; [reflexivity|]. split; [exact Hlt|].
      unfold live. rewrite nth_error_set_block_same; [reflexivity|].
      rewrite set_block_length, length_app. lia.
  - intros H. inversion H; subst. cbn [data_]. split; [reflexivity|].
    left. split; reflexivity.
Qed.

Lemma Compress_tail_frame (this : CompressedBlockBuilder.t)
    (data_slices : list Slice) (result : SliceRef) (data_size : Z)
    (m1 m' : Machine) (x : Status * CompressedBlockBuilder.t * SliceRef) :
  Compress_tail this data_slices result data_size m1 = Some (x, m') ->
  forall b, b <> data_ (CompressedBlockBuilder.buffer_ this) ->
            nth_error (heap m') b = nth_error (heap m1) b.
Proof.
  unfold Compress_tail. intros H b Hb.
  apply bind_inv in H as ([s cs] & m2 & Hcall & H).
  unfold call_Compress in Hcall.
  apply bind_inv in Hcall as (u & m0 & Hemit & Hcall).
  inversion Hemit; subst u m0; clear Hemit.
  destruct (CompressionCodec.Compress (CompressedBlockBuilder.codec_ this)
              data_slices) as [s' written].
  apply bind_inv in Hcall as (u & m3 & Hstore & Hret).
  inversion Hret; subst; clear Hret.
  apply store_frame in Hstore as [_ Hst0]. cbn [block heap] in Hst0.
  destruct (ok s); cbn [negb] in H.
  - apply bind_inv in H as (u1 & m4 & Hs1 & H).
    apply bind_inv in H as (u2 & m5 & Hs2 & H).
    inversion H; subst; clear H.
    apply store_frame in Hs1 as [_ Hst1].
    apply store_frame in Hs2 as [_ Hst2].
    cbn [block] in *.
    rewrite Hst2, Hst1, Hst0 by exact Hb. reflexivity.
  - inversion H; subst. apply Hst0. exact Hb.
Qed.

(** X9: a returning [Compress] call changes no allocation but the
    Builder's own scratch buffer: whatever else was live before the call
    (another Builder's buffer, a block a Decoder returned) is live and
    unchanged after it. *)
Theorem Compress_frame (this this' : CompressedBlockBuilder.t)
    (data_slices : list Slice) (result result' : SliceRef)
    (m m' : Machine) (st : Status) :
  CompressedBlockBuilder.Compress this data_slices result m
    = Some ((st, this', result'), m') ->
  forall (b : nat) (bytes : list byte),
    b <> data_ (CompressedBlockBuilder.buffer_ this) ->
    live (heap m) b = Some bytes ->
    live (heap m') b = Some bytes.
Proof.
  intros Hrun b bytes Hb Hlive.
  pose proof (live_lt _ _ _ Hlive) as Hlt.
  rewrite Compress_unfold in Hrun.
  destruct (_ >? _) in Hrun.
  { inversion Hrun; subst. exact Hlive. }
  apply bind_inv in Hrun as (buffer & m1 & Hresize & Htail).
  apply faststring_resize_frame in Hresize as [Hother Hwhere].
  cbn [heap] in Hother, Hwhere.
  pose proof (Compress_tail_frame _ _ _ _ _ _ _ Htail b) as Hkeep.
  cbn [CompressedBlockBuilder.buffer_] in Hkeep.
  unfold live in *. rewrite Hkeep, Hother; auto.
  destruct Hwhere as [[-> _]|(-> & _ & _)]; [exact Hb|lia].
Qed.

Lemma Compress_frame_witness :
  let decoded := [Byte.x61; Byte.x62; Byte.x63] in
  let before := mkMachine [Some []; Some decoded] [] in
  exists (st : Status) (this' : CompressedBlockBuilder.t)
         (result' : SliceRef) (m' : Machine),
    CompressedBlockBuilder.Compress (fresh_builder store_codec 1000)
      [list_byte_of_string "aaaabbbccc"] no_slice before
    = Some ((st, this', result'), m') /\
    live (heap m') 1 = Some decoded.
Proof.
  intros decoded before.
  assert (Hrun : CompressedBlockBuilder.Compress
                   (fresh_builder store_codec 1000)
                   [list_byte_of_string "aaaabbbccc"] no_slice before
                 = Some ((Status_OK,
                          CompressedBlockBuilder.mk store_codec 1000
                            (mkFaststring 2 18 18),
                          mkSlice (mkPtr 2 0) 18),
                         mkMachine
                           [None; Some decoded;
                            Some (framed_block 10 10
                                    (list_byte_of_string "aaaabbbccc"))]
                           [EvMaxCompressedLength 10; EvNew 2 18; EvDelete 0;
                            EvCodecCompress
                              [list_byte_of_string "aaaabbbccc"]
                              (mkPtr 2 8) 10]))
    by reflexivity.
  eexists _, _, _, _. split; [exact Hrun|].
  apply (Compress_frame _ _ _ _ _ _ _ _ Hrun 1%nat decoded);
    [discriminate|reflexivity].
Defined.

(** X10: a returning [Compress] call returns OK exactly when the codec's
    estimate for the combined input length is within the limit and the
    codec's [Compress] returned OK. *)
Theorem Compress_status (this this' : CompressedBlockBuilder.t)
    (data_slices : list Slice) (result result' : SliceRef)
    (m m' : Machine) (st : Status) :
  CompressedBlockBuilder.Compress this data_slices result m
    = Some ((st, this', result'), m') ->
  let codec := CompressedBlockBuilder.codec_ this in
  let max_compressed_size :=
    to_size_t (CompressionCodec.MaxCompressedLength codec
                 (CompressedBlockBuilder.total_size data_slices)) in
  ok st = true <->
  max_compressed_size <= CompressedBlockBuilder.compressed_size_limit_ this /\
  ok (fst (CompressionCodec.Compress codec data_slices)) = true.
Proof.
  intros Hrun codec max_compressed_size.
  apply Compress_returns in Hrun as [(Hgt & -> & _)|(Hle & Hrun)].
  - fold codec max_compressed_size in Hgt.
    split; [discriminate|]. intros [H _]. lia.
  - destruct Hrun as (buffer & m1 & s & written & head & tail
                      & _ & Hcodec & _ & _ & -> & _).
    fold codec in Hcodec. rewrite Hcodec. cbn [fst].
    fold codec max_compressed_size in Hle.
    destruct (ok s) eqn:Hs.
    + split; [intros _; split; [exact Hle|reflexivity]|reflexivity].
    + rewrite Hs. split; [discriminate|]. intros [_ H]. discriminate.
Qed.

Lemma Compress_status_witness :
  ok (Status_InvalidArgument
        "estimated max size 10 is greater than the expected 5") = true <->
  to_size_t (CompressionCodec.MaxCompressedLength store_codec
               (CompressedBlockBuilder.total_size
                  [list_byte_of_string "aaaabbbccc"])) <= 5 /\
  ok (fst (CompressionCodec.Compress store_codec
             [list_byte_of_string "aaaabbbccc"])) = true.
Proof.
  exact (Compress_status (fresh_builder store_codec 5)
           (fresh_builder store_codec 5)
           [list_byte_of_string "aaaabbbccc"] no_slice no_slice
           fresh_machine
           (mkMachine [Some []] [EvNew 0 0; EvMaxCompressedLength 10])
           (Status_InvalidArgument
              "estimated max size 10 is greater than the expected 5")
           eq_refl).
Defined.

(** ** What [Compress] keeps of the Builder *)

Lemma Compress_step_bound (this this' : CompressedBlockBuilder.t)
    (data_slices : list Slice) (result result' : SliceRef)
    (m m' : Machine) (st : Status) :
  CompressedBlockBuilder.Compress this data_slices result m
    = Some ((st, this', result'), m') ->
  CompressedBlockBuilder.codec_ this' = CompressedBlockBuilder.codec_ this /\
  CompressedBlockBuilder.compressed_size_limit_ this'
    = CompressedBlockBuilder.compressed_size_limit_ this /\
  capacity_ (CompressedBlockBuilder.buffer_ this')
    <= Z.max (capacity_ (CompressedBlockBuilder.buffer_ this))
             (8 + CompressedBlockBuilder.compressed_size_limit_ this).
Proof.
  intros Hrun.
  apply Compress_returns in Hrun as [(_ & _ & -> & _)|(Hle & Hrun)].
  - repeat split; lia.
  - destruct Hrun as (buffer & m1 & s & written & head & tail
                      & Hresize & _ & _ & -> & _).
    apply faststring_resize_inv in Hresize as [_ Hcap].
    cbn [CompressedBlockBuilder.codec_
         CompressedBlockBuilder.compressed_size_limit_
         CompressedBlockBuilder.buffer_].
    split; [reflexivity|]. split; [reflexivity|].
    rewrite Hcap.
    set (estimate := to_size_t _) in *.
    pose proof (to_size_t_range
                  (CompressionCodec.MaxCompressedLength
                     (CompressedBlockBuilder.codec_ this)
                     (CompressedBlockBuilder.total_size data_slices)))
      as Hrange.
    fold estimate in Hrange.
    assert (to_size_t (8 + estimate) <= 8 + estimate).
    { unfold to_size_t. apply Z.mod_le; lia. }
    lia.
Qed.

(** ** A view after the next call *)



(** ** Several ranges and one *)

Lemma Compress_tail_same_heap (this : CompressedBlockBuilder.t)
    (ranges ranges' : list Slice) (result : SliceRef) (data_size : Z)
    (m1 : Machine) :
  CompressionCodec.Compress (CompressedBlockBuilder.codec_ this) ranges
    = CompressionCodec.Compress (CompressedBlockBuilder.codec_ this) ranges' ->
  returned_and_heap (Compress_tail this ranges result data_size m1)
    = returned_and_heap (Compress_tail this ranges' result data_size m1).
Proof.
  intros Hcodec. unfold Compress_tail, call_Compress, bind, emit.
  rewrite Hcodec.
  destruct (CompressionCodec.Compress (CompressedBlockBuilder.codec_ this)
              ranges') as [s written].
  unfold store, store_within, ret. cbn [heap trace block offset].
  destruct (8 + size written <? 2 ^ 64); [|reflexivity].
  destruct (live (heap m1) (data_ (CompressedBlockBuilder.buffer_ this)))
    as [bytes|]; [|reflexivity].
  destruct ((0 <=? 8) && (size written <=? _) && (8 + _ <=? size bytes));
    [|reflexivity].
  destruct (ok s); cbn [negb heap trace]; [|reflexivity].
  destruct (0 + size _ <? 2 ^ 64); [|reflexivity].
  destruct (live _ _) as [bytes1|]; [|reflexivity].
  destruct ((0 <=? 0) && _ && _); [|reflexivity].
  cbn [heap trace].
  destruct (4 + size _ <? 2 ^ 64); [|reflexivity].
  destruct (live _ _) as [bytes2|]; [|reflexivity].
  destruct ((0 <=? 4) && _ && _); reflexivity.
Qed.

(** X12: the single-range [Compress] on a contiguous buffer and the
    multi-range [Compress] on the same bytes split into ranges return the
    same status, the same Builder state and the same view, and leave the
    same heap, hence the same framed block, for any codec whose [Compress]
    does not tell the two apart. *)
Theorem Compress_ranges_as_one (this : CompressedBlockBuilder.t)
    (data_slices : list Slice) (result : SliceRef) (m : Machine) :
  CompressionCodec.Compress (CompressedBlockBuilder.codec_ this) data_slices
    = CompressionCodec.Compress (CompressedBlockBuilder.codec_ this)
        [concat data_slices] ->
  returned_and_heap
    (CompressedBlockBuilder.Compress this data_slices result m)
  = returned_and_heap
      (CompressedBlockBuilder.Compress1 this (concat data_slices) result m).
Proof.
  intros Hcodec. unfold CompressedBlockBuilder.Compress1.
  change ([] ++ [concat data_slices]) with [concat data_slices].
  assert (Hsize : CompressedBlockBuilder.total_size [concat data_slices]
                  = CompressedBlockBuilder.total_size data_slices).
  { rewrite (total_size_concat data_slices),
            (total_size_concat [concat data_slices]).
    cbn [concat]. rewrite app_nil_r. reflexivity. }
  rewrite !Compress_unfold, Hsize.
  destruct (_ >? _); [reflexivity|].
  unfold bind.
  destruct (faststring_resize _ _ _) as [[buffer m1]|]; [|reflexivity].
  apply Compress_tail_same_heap. exact Hcodec.
Qed.

Lemma Compress_ranges_as_one_witness :
  returned_and_heap
    (CompressedBlockBuilder.Compress (fresh_builder rle_codec 1000)
       [list_byte_of_string "aaaa"; []; list_byte_of_string "bbbccc"]
       no_slice fresh_machine)
  = Some ((Status_OK,
           CompressedBlockBuilder.mk rle_codec 1000 (mkFaststring 1 28 28),
           mkSlice (mkPtr 1 0) 14),
          [None;
           Some ([Byte.x06; Byte.x00; Byte.x00; Byte.x00;
                  Byte.x0a; Byte.x00; Byte.x00; Byte.x00;
                  Byte.x04; Byte.x61; Byte.x03; Byte.x62; Byte.x03; Byte.x63]
                   ++ repeat Byte.x00 14)]).
Proof.
  rewrite (Compress_ranges_as_one (fresh_builder rle_codec 1000)
             [list_byte_of_string "aaaa"; []; list_byte_of_string "bbbccc"]
             no_slice fresh_machine eq_refl).
  reflexivity.
Defined.

(** Compressing ranges and reading the view back yields the framed block,
    which is then handed to the Decoder. *)
Lemma compress_ranges_then_uncompress_framed
    (builder : CompressedBlockBuilder.t) (decoder : CompressedBlockDecoder.t)
    (data_slices : list Slice) (result1 result2 : SliceRef) (m : Machine)
    (s : Status) (payload : list byte) :
  let codec := CompressedBlockBuilder.codec_ builder in
  let data_size := CompressedBlockBuilder.total_size data_slices in
  let max_compressed_size :=
    to_size_t (CompressionCodec.MaxCompressedLength codec data_size) in
  faststring_ok (heap m) (CompressedBlockBuilder.buffer_ builder) ->
  max_compressed_size
    <= CompressedBlockBuilder.compressed_size_limit_ builder ->
  8 + max_compressed_size < 2 ^ 64 ->
  CompressionCodec.Compress codec data_slices = (s, payload) ->
  ok s = true ->
  size payload <= max_compressed_size ->
  exists m1 : Machine,
    compress_ranges_then_uncompress builder decoder data_slices result1
      result2 m =
      ('(s2, out) <-
         CompressedBlockDecoder.Uncompress decoder
           (framed_block (size payload) data_size payload) result2 ;;
       if negb (ok s2) then ret (s2, None)
       else
         bytes <- load (data out) (slice_size out) ;;
         ret (Status_OK, Some bytes)) m1.
Proof.
  intros codec data_size max_compressed_size Hok Hlimit Hfit Hcodec Hs Hbound.
  destruct (Compress_accepts builder data_slices result1 m s payload
              Hok Hlimit Hfit Hcodec Hbound)
    as (buffer & m1 & head & tail & Hrun & _ & _ & Hlive & _).
  rewrite Hs in Hrun, Hlive. fold data_size in Hlive.
  exists m1. unfold compress_ranges_then_uncompress.
  rewrite (bind_run _ _ _ _ _ Hrun). cbv beta iota.
  change (negb (ok Status_OK)) with false. cbv iota.
  cbn [data slice_size]. unfold framed_block.
  set (e1 := InlineEncodeFixed32 (size payload)) in *.
  set (e2 := InlineEncodeFixed32 data_size) in *.
  replace (size payload + 8) with (size (e1 ++ e2 ++ payload))
    by (rewrite !size_app; unfold e1, e2;
        rewrite !InlineEncodeFixed32_size; lia).
  rewrite (bind_run _ _ _ _ _ (load_prefix _ (e1 ++ e2 ++ payload) tail m1
                                 ltac:(rewrite Hlive, <- !app_assoc;
                                       reflexivity))).
  reflexivity.
Qed.

(** The round trip for several ranges, from any Builder whose scratch
    buffer is well formed. *)
Lemma ranges_round_trip_from (builder : CompressedBlockBuilder.t)
    (decoder : CompressedBlockDecoder.t) (data_slices : list Slice)
    (payload : Slice) (result1 result2 : SliceRef) (m : Machine)
    (s1 s2 : Status) :
  let codec := CompressedBlockBuilder.codec_ builder in
  let original := concat data_slices in
  let max_compressed_size :=
    to_size_t (CompressionCodec.MaxCompressedLength codec (size original)) in
  faststring_ok (heap m) (CompressedBlockBuilder.buffer_ builder) ->
  CompressedBlockDecoder.codec_ decoder = codec ->
  max_compressed_size
    <= CompressedBlockBuilder.compressed_size_limit_ builder ->
  size original <= CompressedBlockDecoder.uncompressed_size_limit_ decoder ->
  CompressionCodec.Compress codec data_slices = (s1, payload) ->
  ok s1 = true ->
  CompressionCodec.Uncompress codec payload (size original)
    = (s2, original) ->
  ok s2 = true ->
  size payload <= max_compressed_size ->
  8 + max_compressed_size < 2 ^ 64 ->
  size original < 2 ^ 32 ->
  size payload < 2 ^ 32 ->
  exists m' : Machine,
    compress_ranges_then_uncompress builder decoder data_slices result1
      result2 m
      = Some ((Status_OK, Some original), m').
Proof.
  intros codec original max_compressed_size Hok Hsame Hlimit Hulimit Hc Hs1
         Hu Hs2 Hbound Hfit Hin Hpay.
  pose proof (size_nonneg original) as Hin0.
  pose proof (size_nonneg payload) as Hpay0.
  assert (Hds : CompressedBlockBuilder.total_size data_slices = size original).
  { rewrite total_size_concat. apply to_size_t_small. fold original. lia. }
  destruct (compress_ranges_then_uncompress_framed builder decoder
              data_slices result1 result2 m s1 payload) as (m1 & Hrun);
    try rewrite Hds; auto.
  rewrite Hrun, Hds. clear Hrun.
  set (framed := framed_block (size payload) (size original) payload).
  pose proof (framed_size (size payload) (size original) payload) as Hfs.
  pose proof (framed_compressed_size (size payload) (size original) payload)
    as Hcs.
  pose proof (framed_uncompressed_size (size payload) (size original) payload)
    as Hus.
  pose proof (framed_payload (size payload) (size original) payload) as Hfp.
  change (InlineEncodeFixed32 (size payload)
            ++ InlineEncodeFixed32 (size original) ++ payload)
    with framed in Hfs, Hcs, Hus, Hfp.
  rewrite to_uint32_small in Hcs, Hus by lia.
  pose proof (Uncompress_decodes decoder framed result2 m1 s2 original)
    as Hdec.
  cbv zeta in Hdec. rewrite Hcs, Hus, Hfp, Hsame in Hdec.
  assert (Hfirst : firstn (Z.to_nat (size payload)) payload = payload)
    by (unfold size; rewrite Nat2Z.id; apply firstn_all).
  rewrite Hfirst in Hdec. fold codec in Hdec.
  specialize (Hdec ltac:(lia) ltac:(lia) Hulimit Hu ltac:(lia)).
  rewrite Hs2 in Hdec.
  rewrite splice_whole in Hdec
    by (unfold size; rewrite Nat2Z.id; reflexivity).
  match type of Hdec with _ = Some (_, ?mm) => set (m2 := mm) in Hdec end.
  assert (Hlive : live (heap m2) (length (heap m1)) = Some (original ++ [])).
  { cbn [heap m2]. rewrite app_nil_r. apply live_app_new. }
  rewrite (bind_run _ _ _ _ _ Hdec). cbv beta iota.
  change (negb (ok Status_OK)) with false. cbv iota.
  cbn [data slice_size].
  rewrite (bind_run _ _ _ _ _ (load_prefix _ original [] m2 Hlive)).
  exists m2. reflexivity.
Qed.

(** The constructor leaves a well-formed, empty scratch buffer, on any
    machine. *)
Lemma new_builder (codec : CompressionCodec.t) (size_limit : Z) (m : Machine) :
  exists (this : CompressedBlockBuilder.t) (m' : Machine),
    CompressedBlockBuilder.new codec size_limit m = Some (this, m') /\
    CompressedBlockBuilder.codec_ this = codec /\
    CompressedBlockBuilder.compressed_size_limit_ this
      = to_size_t size_limit /\
    faststring_ok (heap m') (CompressedBlockBuilder.buffer_ this).
Proof.
  eexists _, _. split; [reflexivity|].
  cbn [CompressedBlockBuilder.codec_
       CompressedBlockBuilder.compressed_size_limit_
       CompressedBlockBuilder.buffer_].
  split; [reflexivity|]. split; [reflexivity|].
  exists []. cbn [heap data_ len_ capacity_ Z.to_nat repeat].
  rewrite live_app_new. cbn. repeat split; lia.
Qed.

(** X13: the round trip, end to end and for several ranges.  A Builder and
    a Decoder are constructed over one codec with their limits (each taken
    as a [size_t]).  When the ranges hold fewer than 2^32 bytes together,
    the codec's estimate for them is within the Builder's limit (with 8
    more still a [size_t]), their combined length is within the Decoder's
    limit, and the codec compresses them into fewer than 2^32 bytes, no
    more than its estimate, and uncompresses that payload into their
    concatenation, then compressing the ranges and uncompressing the
    framed block returns exactly their concatenation. *)
Theorem ranges_round_trip (codec : CompressionCodec.t)
    (compressed_size_limit uncompressed_size_limit : Z)
    (data_slices : list Slice) (payload : Slice)
    (result1 result2 : SliceRef) (m : Machine) (s1 s2 : Status) :
  let original := concat data_slices in
  let max_compressed_size :=
    to_size_t (CompressionCodec.MaxCompressedLength codec (size original)) in
  max_compressed_size <= to_size_t compressed_size_limit ->
  size original <= to_size_t uncompressed_size_limit ->
  CompressionCodec.Compress codec data_slices = (s1, payload) ->
  ok s1 = true ->
  CompressionCodec.Uncompress codec payload (size original)
    = (s2, original) ->
  ok s2 = true ->
  size payload <= max_compressed_size ->
  8 + max_compressed_size < 2 ^ 64 ->
  size original < 2 ^ 32 ->
  size payload < 2 ^ 32 ->
  exists m' : Machine,
    construct_compress_uncompress codec compressed_size_limit
      uncompressed_size_limit data_slices result1 result2 m
      = Some ((Status_OK, Some original), m').
Proof.
  intros original max_compressed_size Hlimit Hulimit Hc Hs1 Hu Hs2 Hbound
         Hfit Hin Hpay.
  destruct (new_builder codec compressed_size_limit m)
    as (builder & m0 & Hnew & Hcodec & Hl & Hok).
  unfold construct_compress_uncompress.
  rewrite (bind_run _ _ _ _ _ Hnew). cbv beta zeta.
  apply (ranges_round_trip_from builder
           (CompressedBlockDecoder.new codec uncompressed_size_limit)
           data_slices payload result1 result2 m0 s1 s2);
    rewrite ?Hcodec, ?Hl; auto.
Qed.

Lemma ranges_round_trip_witness :
  exists m' : Machine,
    construct_compress_uncompress rle_codec 1000 1000
      [list_byte_of_string "aaaa"; []; list_byte_of_string "bbbccc"]
      no_slice no_slice empty_machine
    = Some ((Status_OK, Some (list_byte_of_string "aaaabbbccc")), m').
Proof.
  apply (ranges_round_trip rle_codec 1000 1000
           [list_byte_of_string "aaaa"; []; list_byte_of_string "bbbccc"]
           [Byte.x04; Byte.x61; Byte.x03; Byte.x62; Byte.x03; Byte.x63]
           no_slice no_slice empty_machine Status_OK Status_OK);
    try reflexivity; vm_compute; discriminate.
Defined.

(** ** Sequences of calls *)

(** X14: a Builder whose scratch buffer is well formed (as the constructor
    leaves it) stays usable over any sequence of [Compress] calls: as long
    as, for each input, the codec writes no more than its estimate and 8
    plus the estimate is a [size_t], every call returns, refused inputs and
    codec errors included, with no access outside an allocation. *)
Theorem compress_all_returns (calls : list (list Slice))
    (this : CompressedBlockBuilder.t) (result : SliceRef) (m : Machine) :
  faststring_ok (heap m) (CompressedBlockBuilder.buffer_ this) ->
  Forall (codec_keeps_estimate (CompressedBlockBuilder.codec_ this)
            (CompressedBlockBuilder.compressed_size_limit_ this))
         calls ->
  exists (history : list (Status * CompressedBlockBuilder.t * SliceRef))
         (m' : Machine),
    compress_all this calls result m = Some (history, m') /\
    length history = length calls.
Proof.
  revert this result m.
  induction calls as [|data_slices calls IH]; intros this result m Hok Hall.
  - eexists _, _. split; reflexivity.
  - inversion Hall as [|? ? Hhead Htail]; subst.
    assert (Hcall : exists st this' result' m1,
               CompressedBlockBuilder.Compress this data_slices result m
                 = Some ((st, this', result'), m1)).
    { destruct (Z_gt_le_dec
                  (to_size_t
                     (CompressionCodec.MaxCompressedLength
                        (CompressedBlockBuilder.codec_ this)
                        (CompressedBlockBuilder.total_size data_slices)))
                  (CompressedBlockBuilder.compressed_size_limit_ this))
        as [Hgt|Hle].
      - rewrite Compress_rejects by exact Hgt. eexists _, _, _, _.
        reflexivity.
      - destruct (Hhead Hle) as [Hfit Hbound].
        destruct (CompressionCodec.Compress
                    (CompressedBlockBuilder.codec_ this) data_slices)
          as [s written] eqn:Hc.
        destruct (Compress_accepts this data_slices result m s written
                    Hok Hle Hfit Hc Hbound)
          as (buffer & m1 & head & tail & Hrun & _).
        eexists _, _, _, _. exact Hrun. }
    destruct Hcall as (st & this' & result' & m1 & Hcall).
    pose proof (Compress_keeps_buffer_ok _ _ _ _ _ _ _ _ Hok Hcall) as Hok'.
    pose proof (Compress_step_bound _ _ _ _ _ _ _ _ Hcall)
      as (Hcodec & Hlimit & _).
    destruct (IH this' result' m1 Hok') as (later & m' & Hrest & Hlen).
    { rewrite Hcodec, Hlimit. exact Htail. }
    cbn [compress_all].
    rewrite (bind_run _ _ _ _ _ Hcall). cbv beta iota.
    rewrite (bind_run _ _ _ _ _ Hrest). cbv beta.
    eexists _, _. split; [reflexivity|]. cbn [length]. lia.
Qed.

Lemma compress_all_returns_witness :
  exists (history : list (Status * CompressedBlockBuilder.t * SliceRef))
         (m' : Machine),
    compress_all (fresh_builder store_codec 12)
      [[list_byte_of_string "aaaabbbcccddd"]; [list_byte_of_string "xy"]]
      no_slice fresh_machine
    = Some (history, m') /\
    length history = 2%nat.
Proof.
  apply (compress_all_returns
           [[list_byte_of_string "aaaabbbcccddd"];
            [list_byte_of_string "xy"]]
           (fresh_builder store_codec 12) no_slice fresh_machine).
  - exists []. cbn. repeat split; lia.
  - apply Forall_cons; [|apply Forall_cons; [|apply Forall_nil]];
      intros _; split; vm_compute; congruence.
Defined.

(** X15: the header's compressed-size field is 32 bits wide, so a block
    framed around a payload of 2^32 bytes or more never passes the
    Decoder's length check: [Uncompress] returns Corruption for it,
    whatever the codec and the limit, with [*result] left as it was and
    without a codec call or an allocation. *)
Theorem Uncompress_rejects_long_payload (this : CompressedBlockDecoder.t)
    (payload : Slice) (data_size : Z) (result : SliceRef) (m : Machine) :
  let framed := framed_block (size payload) data_size payload in
  2 ^ 32 <= size payload ->
  exists (st : Status) (m' : Machine),
    CompressedBlockDecoder.Uncompress this framed result m
      = Some ((st, result), m') /\
    code st = kCorruption /\
    heap m' = heap m /\
    (forall e, In e (skipn (length (trace m)) (trace m')) ->
               exists off, e = EvDecodeFixed32 off).
Proof.
  intros framed Hpay.
  pose proof (framed_block_size (size payload) data_size payload) as Hfs.
  fold framed in Hfs.
  assert (Hcs : DecodeFixed32 framed = to_uint32 (size payload)).
  { unfold framed, framed_block. apply DecodeFixed32_InlineEncodeFixed32. }
  pose proof (to_uint32_range (size payload)) as Hrange.
  rewrite Uncompress_mismatch by lia.
  eexists _, _. split; [reflexivity|]. split; [reflexivity|].
  split; [reflexivity|]. cbn [trace].
  intros e. rewrite skipn_app, skipn_all, Nat.sub_diag. cbn.
  intros [<-|[<-|[]]]; eexists; reflexivity.
Qed.

Lemma Uncompress_rejects_long_payload_witness :
  let payload := repeat Byte.x00 (Z.to_nat (2 ^ 32)) in
  let framed := framed_block (size payload) (size payload) payload in
  exists (st : Status) (m' : Machine),
    CompressedBlockDecoder.Uncompress
      (CompressedBlockDecoder.mk store_codec (2 ^ 33)) framed no_slice
      empty_machine
    = Some ((st, no_slice), m') /\
    code st = kCorruption /\
    heap m' = heap empty_machine /\
    (forall e, In e (skipn (length (trace empty_machine)) (trace m')) ->
               exists off, e = EvDecodeFixed32 off).
Proof.
  intros payload framed.
  assert (Hsize : 2 ^ 32 <= size payload).
  { unfold size, payload. rewrite repeat_length, Z2Nat.id; lia. }
  clearbody payload.
  exact (Uncompress_rejects_long_payload
           (CompressedBlockDecoder.mk store_codec (2 ^ 33)) payload
           (size payload) no_slice empty_machine Hsize).
Defined.
